(** * Geneve header and option codec (mdlayher/geneve)

    A shallow embedding of [header.go], [option.go] and the package constants,
    followed by the properties of the marshal/unmarshal engine.

    Conventions of the embedding:
    - Go's fixed-width unsigned integers ([uint8], [uint16], [uint32]) and
      [int] are values of [Z]; every conversion that truncates in Go
      ([byte(x)], [uint32(x) << 8], ...) is written out with [mod].
    - A [[]byte] buffer is a [list Z]; [is_bytes] says that every element is
      a [uint8].
    - A method with a pointer receiver that writes its receiver returns the
      receiver after the call next to its Go result (explicit state passing).
    - [(T, error)] results are a sum [result T]; the value Go returns next to
      a non-nil error ([nil] or [0]) is dropped. *)

From Stdlib Require Import ZArith List Lia Bool.
Import ListNotations.
Local Open Scope Z_scope.

(** ** Go slices and integers *)

Definition len {A : Type} (l : list A) : Z := Z.of_nat (length l).

(** [b[i]]; every use below is guarded by a length check, so the default is
    never read on a path that Go would execute without a panic. *)
Definition index (b : list Z) (i : Z) : Z := nth (Z.to_nat i) b 0.

(** [b[i:]] and [b[i:j]]. *)
Definition slice_from {A : Type} (b : list A) (i : Z) : list A :=
  skipn (Z.to_nat i) b.

Definition slice {A : Type} (b : list A) (i j : Z) : list A :=
  firstn (Z.to_nat (j - i)) (skipn (Z.to_nat i) b).

(** [make([]byte, n)]. *)
Definition make (n : Z) : list Z := repeat 0 (Z.to_nat n).

(** [b[i] = v] on a position inside the buffer. *)
Fixpoint set_nth (b : list Z) (i : nat) (v : Z) : list Z :=
  match b, i with
  | [], _ => []
  | _ :: t, O => v :: t
  | x :: t, S i' => x :: set_nth t i' v
  end.

Definition store (b : list Z) (i v : Z) : list Z := set_nth b (Z.to_nat i) v.

(** [b[i] |= v]. *)
Definition store_or (b : list Z) (i v : Z) : list Z :=
  store b i (Z.lor (index b i) v).

(** [copy(dst, src)]: the first [min(len(dst), len(src))] elements of [src]
    overwrite the start of [dst]. *)
Definition copy (dst src : list Z) : list Z :=
  firstn (length dst) src ++ skipn (length src) dst.

(** [copy(b[off:], src)] seen from [b]. *)
Definition copy_at (b : list Z) (off : Z) (src : list Z) : list Z :=
  firstn (Z.to_nat off) b ++ copy (slice_from b off) src.

(** Conversions to a narrower unsigned type. *)
Definition to_uint8 (x : Z) : Z := x mod 2 ^ 8.
Definition to_uint16 (x : Z) : Z := x mod 2 ^ 16.
Definition to_uint32 (x : Z) : Z := x mod 2 ^ 32.

Definition is_uint8 (x : Z) : Prop := 0 <= x < 2 ^ 8.
Definition is_uint16 (x : Z) : Prop := 0 <= x < 2 ^ 16.
Definition is_uint32 (x : Z) : Prop := 0 <= x < 2 ^ 32.

Definition is_bytes (b : list Z) : Prop := Forall is_uint8 b.

(** A [[]byte] field whose nil-ness is observable ([Option.Data]): Go tells a
    nil slice from an empty one, although both have length zero. *)
Inductive ByteSlice : Type :=
| NilSlice
| Bytes (l : list Z).

Definition elems (s : ByteSlice) : list Z :=
  match s with
  | NilSlice => []
  | Bytes l => l
  end.

Definition is_nil (s : ByteSlice) : bool :=
  match s with
  | NilSlice => true
  | Bytes _ => false
  end.

(** ** encoding/binary, big-endian *)

Module BigEndian.

(** [PutUint16(b[i:i+2], v)] seen from [b]. *)
Definition PutUint16 (b : list Z) (i v : Z) : list Z :=
  let b := store b i (to_uint8 (Z.shiftr v 8)) in
  store b (i + 1) (to_uint8 v).

(** [PutUint32(b[i:i+4], v)] seen from [b]. *)
Definition PutUint32 (b : list Z) (i v : Z) : list Z :=
  let b := store b i (to_uint8 (Z.shiftr v 24)) in
  let b := store b (i + 1) (to_uint8 (Z.shiftr v 16)) in
  let b := store b (i + 2) (to_uint8 (Z.shiftr v 8)) in
  store b (i + 3) (to_uint8 v).

(** [Uint16(b)] on a two-byte slice. *)
Definition Uint16 (b : list Z) : Z :=
  Z.lor (index b 1) (Z.shiftl (index b 0) 8).

(** [Uint32(b)] on a four-byte slice. *)
Definition Uint32 (b : list Z) : Z :=
  Z.lor (Z.lor (Z.lor (index b 3) (Z.shiftl (index b 2) 8))
               (Z.shiftl (index b 1) 16))
        (Z.shiftl (index b 0) 24).

End BigEndian.

(** ** Errors *)

Inductive error : Type :=
| ErrUnexpectedEOF            (* io.ErrUnexpectedEOF *)
| errInvalidVersion
| errInvalidVNI
| errInvalidOptionDataLength
| errInvalidOptionType
| errInvalidOptionLength.

Inductive result (A : Type) : Type :=
| Ok (a : A)
| Err (e : error).

Arguments Ok {A} a.
Arguments Err {A} e.

(** ** Package constants *)

Module geneve.
Definition MaxVNI : Z := Z.shiftl 1 24 - 1.
Definition Version : Z := 0.
Definition ProtocolTypeEthernet : Z := 0x6558.
Definition headerLen : Z := 8.
Definition maxOptionType : Z := Z.shiftl 1 7 - 1.
Definition maxOptionLength : Z := Z.shiftl 1 5 - 1.
Definition optionHeaderLen : Z := 4.
End geneve.

(** [VNI.Valid]. *)
Definition VNI_Valid (v : Z) : bool := v <=? geneve.MaxVNI.

(** ** option.go *)

Module Option.
Import geneve.

Record t : Type := mk {
  OptionClass : Z;          (* uint16 *)
  FlagCritical : bool;
  Type_ : Z;                (* uint8; the Go field is named Type *)
  Data : ByteSlice
}.

(** [new(Option)]. *)
Definition zero : t := mk 0 false 0 NilSlice.

(** The values of the field types. *)
Definition wf (o : t) : Prop :=
  is_uint16 (OptionClass o) /\ is_uint8 (Type_ o) /\ is_bytes (elems (Data o)).

Definition MarshalBinary (o : t) : result (list Z) :=
  let data := elems (Data o) in
  if negb (Z.rem (len data) 4 =? 0) then Err errInvalidOptionDataLength else
  let ld := Z.quot (len data) 4 in
  if Type_ o >? maxOptionType then Err errInvalidOptionType else
  if ld >? maxOptionLength then Err errInvalidOptionLength else
  let b := make (optionHeaderLen + len data) in
  let b := BigEndian.PutUint16 b 0 (OptionClass o) in
  let b := if FlagCritical o then store_or b 2 (Z.shiftl 1 7) else b in
  let b := store_or b 2 (Type_ o) in
  let b := store_or b 3 (to_uint8 ld) in
  let b := copy_at b optionHeaderLen data in
  Ok b.

(** The receiver is written only after the three checks. *)
Definition UnmarshalBinary (o : t) (b : list Z) : t * option error :=
  if len b <? optionHeaderLen then (o, Some ErrUnexpectedEOF) else
  if negb (Z.rem (len b) 4 =? 0) then (o, Some errInvalidOptionLength) else
  let ol := Z.land (index b 3) 0x1f * 4 in
  if len b <? optionHeaderLen + ol then (o, Some ErrUnexpectedEOF) else
  let oc := BigEndian.Uint16 (slice b 0 2) in
  let fc := Z.shiftr (index b 2) 7 =? 1 in
  let ty := Z.land (index b 2) 0x7f in
  let data := copy (make ol) (slice b optionHeaderLen (optionHeaderLen + ol)) in
  (mk oc fc ty (Bytes data), None).

(** Equality of options up to the nil-ness of [Data]. *)
Definition same (o1 o2 : t) : Prop :=
  OptionClass o1 = OptionClass o2 /\
  FlagCritical o1 = FlagCritical o2 /\
  Type_ o1 = Type_ o2 /\
  elems (Data o1) = elems (Data o2).

(** What a decoder makes of an option: the same fields, [Data] non-nil. *)
Definition decoded (o : t) : t :=
  mk (OptionClass o) (FlagCritical o) (Type_ o) (Bytes (elems (Data o))).

End Option.

(** ** header.go *)

Module Header.
Import geneve.

Record t : Type := mk {
  Version : Z;              (* uint8 *)
  FlagOAM : bool;
  FlagCritical : bool;
  ProtocolType : Z;         (* uint16 *)
  VNI : Z;                  (* uint32 *)
  Options : list Option.t   (* []*Option, in order *)
}.

(** [new(Header)]. *)
Definition zero : t := mk 0 false false 0 0 [].

Definition wf (h : t) : Prop :=
  is_uint8 (Version h) /\ is_uint16 (ProtocolType h) /\ is_uint32 (VNI h) /\
  Forall Option.wf (Options h).

Definition set_Version (h : t) (v : Z) : t :=
  mk v (FlagOAM h) (FlagCritical h) (ProtocolType h) (VNI h) (Options h).
Definition set_FlagOAM (h : t) (v : bool) : t :=
  mk (Version h) v (FlagCritical h) (ProtocolType h) (VNI h) (Options h).
Definition set_FlagCritical (h : t) (v : bool) : t :=
  mk (Version h) (FlagOAM h) v (ProtocolType h) (VNI h) (Options h).
Definition set_ProtocolType (h : t) (v : Z) : t :=
  mk (Version h) (FlagOAM h) (FlagCritical h) v (VNI h) (Options h).
Definition set_VNI (h : t) (v : Z) : t :=
  mk (Version h) (FlagOAM h) (FlagCritical h) (ProtocolType h) v (Options h).
Definition set_Options (h : t) (v : list Option.t) : t :=
  mk (Version h) (FlagOAM h) (FlagCritical h) (ProtocolType h) (VNI h) v.

(** The [for _, o := range h.Options] loop of [MarshalBinary], with its
    accumulator [obs] and its early return. *)
Fixpoint marshalOptions (os : list Option.t) (obs : list Z) : result (list Z) :=
  match os with
  | [] => Ok obs
  | o :: os' =>
      match Option.MarshalBinary o with
      | Err e => Err e
      | Ok ob => marshalOptions os' (obs ++ ob)
      end
  end.

Definition MarshalBinary (h : t) : result (list Z) :=
  if negb (Version h =? geneve.Version) then Err errInvalidVersion else
  if negb (VNI_Valid (VNI h)) then Err errInvalidVNI else
  match marshalOptions (Options h) [] with
  | Err e => Err e
  | Ok obs =>
      let b := make headerLen in
      let b := store_or b 0 (to_uint8 (Z.shiftl (Version h) 6)) in
      let b := store_or b 0 (to_uint8 (Z.quot (len obs) 4)) in
      let b := if FlagOAM h then store_or b 1 (Z.shiftl 1 7) else b in
      let b := if FlagCritical h then store_or b 1 (Z.shiftl 1 6) else b in
      let b := BigEndian.PutUint16 b 2 (to_uint16 (ProtocolType h)) in
      let b := BigEndian.PutUint32 b 4 (to_uint32 (Z.shiftl (to_uint32 (VNI h)) 8)) in
      Ok (b ++ obs)
  end.

(** The [for i <= ol] loop of [unmarshalBinaryOffset]. Every iteration adds
    at least [optionHeaderLen] to [i], so the loop ends; [fuel] bounds the
    number of iterations and [None] means that it ran out. *)
Fixpoint optionsLoop (fuel : nat) (b : list Z) (ol i : Z) (h : t)
  : option (t * result Z) :=
  if i <=? ol then
    match fuel with
    | O => None
    | S fuel' =>
        match Option.UnmarshalBinary Option.zero (slice_from b i) with
        | (_, Some err) => Some (h, Err err)
        | (o, None) =>
            let h := set_Options h (Options h ++ [o]) in
            optionsLoop fuel' b ol (i + (optionHeaderLen + len (elems (Option.Data o)))) h
        end
    end
  else Some (h, Ok i).

(** [unmarshalBinaryOffset]: the receiver after the call and the returned
    offset or error. The loop is given [ol] iterations, more than it can
    use ([unmarshalBinaryOffset_total]). *)
Definition unmarshalBinaryOffset (h : t) (b : list Z) : option (t * result Z) :=
  if len b <? headerLen then Some (h, Err ErrUnexpectedEOF) else
  let h := set_Version h (Z.shiftr (index b 0) 6) in
  let ol := Z.land (index b 0) 0x3f * 4 in
  if len b <? headerLen + ol then Some (h, Err ErrUnexpectedEOF) else
  let h := set_FlagOAM h (Z.shiftr (index b 1) 7 =? 1) in
  let h := set_FlagCritical h (Z.shiftr (Z.land (index b 1) 0x40) 6 =? 1) in
  let h := set_ProtocolType h (BigEndian.Uint16 (slice b 2 4)) in
  let h := set_VNI h (Z.shiftr (BigEndian.Uint32 (slice b 4 8)) 8) in
  if ol =? 0 then Some (h, Ok headerLen) else
  optionsLoop (Z.to_nat ol) b ol headerLen h.

(** [UnmarshalBinary]: the offset is discarded. *)
Definition UnmarshalBinary (h : t) (b : list Z) : option (t * option error) :=
  match unmarshalBinaryOffset h b with
  | None => None
  | Some (h', Ok _) => Some (h', None)
  | Some (h', Err e) => Some (h', Some e)
  end.

(** Equality of headers up to the nil-ness of the options' [Data]. *)
Definition same (h1 h2 : t) : Prop :=
  Version h1 = Version h2 /\
  FlagOAM h1 = FlagOAM h2 /\
  FlagCritical h1 = FlagCritical h2 /\
  ProtocolType h1 = ProtocolType h2 /\
  VNI h1 = VNI h2 /\
  Forall2 Option.same (Options h1) (Options h2).

End Header.

(** ** Test vectors of header_test.go and option_test.go *)

Definition opt1 : Option.t := Option.mk 0x0001 true 0x02 (Bytes [0; 1; 2; 3]).
Definition opt2 : Option.t :=
  Option.mk 0x0002 false 0x04 (Bytes [4; 5; 6; 7; 8; 9; 10; 11]).
Definition hdr_all : Header.t :=
  Header.mk geneve.Version true true geneve.ProtocolTypeEthernet 0x00bbeeff [opt1; opt2].
Definition hdr_all_bytes : list Z :=
  [0x05; 0xc0; 0x65; 0x58; 0xbb; 0xee; 0xff; 0x00;
   0x00; 0x01; 0x82; 0x01; 0; 1; 2; 3;
   0x00; 0x02; 0x04; 0x02; 4; 5; 6; 7; 8; 9; 10; 11].

(** ** Closed forms of the bytes written *)

(** The four header bytes of an option followed by its data. *)
Definition option_wire (o : Option.t) : list Z :=
  [to_uint8 (Z.shiftr (Option.OptionClass o) 8);
   to_uint8 (Option.OptionClass o);
   Z.lor (if Option.FlagCritical o then Z.shiftl 1 7 else 0) (Option.Type_ o);
   to_uint8 (Z.quot (len (elems (Option.Data o))) 4)]
  ++ elems (Option.Data o).

(** The eight bytes of the fixed header, for an option vector of [n] bytes. *)
Definition header_wire (h : Header.t) (n : Z) : list Z :=
  let w := to_uint32 (Z.shiftl (to_uint32 (Header.VNI h)) 8) in
  let p := to_uint16 (Header.ProtocolType h) in
  [Z.lor (to_uint8 (Z.shiftl (Header.Version h) 6)) (to_uint8 (Z.quot n 4));
   Z.lor (if Header.FlagOAM h then Z.shiftl 1 7 else 0)
         (if Header.FlagCritical h then Z.shiftl 1 6 else 0);
   to_uint8 (Z.shiftr p 8); to_uint8 p;
   to_uint8 (Z.shiftr w 24); to_uint8 (Z.shiftr w 16);
   to_uint8 (Z.shiftr w 8); to_uint8 w].

(** The bytes of an option vector, in list order. *)
Definition options_wire (os : list Option.t) : list Z :=
  concat (map option_wire os).

(** The last option of the list, if there is one, carries data. *)
Fixpoint last_has_data (os : list Option.t) : Prop :=
  match os with
  | [] => True
  | [o] => 0 < len (elems (Option.Data o))
  | _ :: os' => last_has_data os'
  end.

(** The fields [unmarshalBinaryOffset] reads from the first eight bytes. *)
Definition fixed_fields (r : Header.t) (a0 a1 a2 a3 a4 a5 a6 a7 : Z) : Header.t :=
  Header.mk (Z.shiftr a0 6)
            (Z.shiftr a1 7 =? 1)
            (Z.shiftr (Z.land a1 0x40) 6 =? 1)
            (BigEndian.Uint16 [a2; a3])
            (Z.shiftr (BigEndian.Uint32 [a4; a5; a6; a7]) 8)
            (Header.Options r).

(** The option marshals without error. *)
Definition marshals (o : Option.t) : Prop := exists b, Option.MarshalBinary o = Ok b.

(** The offsets at which the loop of [unmarshalBinaryOffset] decodes an
    option: [Header.optionsLoop] with the visited values of [i] collected. *)
Fixpoint optionOffsets (fuel : nat) (b : list Z) (ol i : Z) : list Z :=
  if i <=? ol then
    match fuel with
    | O => []
    | S fuel' =>
        match Option.UnmarshalBinary Option.zero (slice_from b i) with
        | (_, Some _) => []
        | (o, None) =>
            i :: optionOffsets fuel' b ol
                   (i + (geneve.optionHeaderLen + len (elems (Option.Data o))))
        end
    end
  else [].

(** The option offsets of a header buffer. *)
Definition headerOptionOffsets (b : list Z) : list Z :=
  let ol := Z.land (index b 0) 0x3f * 4 in
  optionOffsets (Z.to_nat ol) b ol geneve.headerLen.

(** The options of a list without its last one when that one has no data. *)
Fixpoint without_empty_last (os : list Option.t) : list Option.t :=
  match os with
  | [] => []
  | [o] => if len (elems (Option.Data o)) =? 0 then [] else [o]
  | o :: os' => o :: without_empty_last os'
  end.

(** The run of the option loop of [unmarshalBinaryOffset] from offset [i],
    told by what [Option.UnmarshalBinary] returns on [b[i:]]: the options it
    decodes, in order, and how it ends. The run is over when [i] exceeds
    [ol]; it fails with the error of the first option that does not decode;
    an option that decodes is followed by the run from
    [i + optionHeaderLen + len(o.Data)]. *)
Inductive optionsRun (b : list Z) (ol : Z) : Z -> list Option.t -> result Z -> Prop :=
| run_done (i : Z) :
    ol < i ->
    optionsRun b ol i [] (Ok i)
| run_fail (i : Z) (o : Option.t) (e : error) :
    i <= ol ->
    Option.UnmarshalBinary Option.zero (slice_from b i) = (o, Some e) ->
    optionsRun b ol i [] (Err e)
| run_step (i : Z) (o : Option.t) (opts : list Option.t) (res : result Z) :
    i <= ol ->
    Option.UnmarshalBinary Option.zero (slice_from b i) = (o, None) ->
    optionsRun b ol (i + (geneve.optionHeaderLen + len (elems (Option.Data o)))) opts res ->
    optionsRun b ol i (o :: opts) res.

(** ** Inputs on which the codec is evaluated below *)

(** A header that advertises four words of options: [opt1], then an option
    whose length byte asks for 124 bytes of data where four follow. *)
Definition buf_second_option_short : list Z :=
  [0x04; 0; 0; 0; 0; 0; 0; 0;
   0x00; 0x01; 0x82; 0x01; 0; 1; 2; 3;
   0; 0; 0; 0x1f; 0; 0; 0; 0].


(** [&Header{Options: []*Option{{}}}]: one option without data. *)
Definition hdr_empty_option : Header.t :=
  Header.mk 0 false false 0 0 [Option.zero].

Definition hdr_empty_option_bytes : list Z :=
  [0x01; 0; 0; 0; 0; 0; 0; 0;  0; 0; 0; 0].

(** A header with 64 options without data: 64 words of options. *)
Definition hdr_64_options : Header.t :=
  Header.mk 0 false false 0 0 (repeat Option.zero 64).

(** [&Header{Options: []*Option{opt1}}] and its encoding. *)
Definition hdr_one_option : Header.t :=
  Header.mk 0 false false 0 0 [opt1].

Definition hdr_one_option_bytes : list Z :=
  [0x02; 0; 0; 0; 0; 0; 0; 0;  0x00; 0x01; 0x82; 0x01; 0; 1; 2; 3].

(** Eight bytes that advertise one word of options and carry none. *)
Definition buf_short_options : list Z := [0x41; 0; 0; 0; 0; 0; 0; 0].

(** An option whose length byte has its three reserved bits set
    (option_test.go). *)
Definition buf_option_reserved : list Z := [0; 0; 0; 0xe1; 1; 2; 3; 4].

(** [hdr_all_bytes] with every reserved bit of the fixed header set. *)
Definition hdr_all_bytes_reserved : list Z :=
  store_or (store_or hdr_all_bytes 1 0x3f) 7 0xff.

(** ** Tactics *)

(** Reads [b[k]] off a buffer whose first cells are explicit. *)
Ltac index_simpl :=
  repeat match goal with
         | |- context [index ?l ?i] =>
             let n := eval cbv in (Z.to_nat i) in
             change (index l i) with (nth n l 0); cbn [nth]
         end.

(** Runs the stores of a marshaller on a buffer whose first cells are explicit. *)
Ltac stores_simpl :=
  cbv [BigEndian.PutUint16 BigEndian.PutUint32 store_or store];
  repeat match goal with
         | |- context [Z.to_nat ?i] =>
             lazymatch i with
             | context [len _] => fail
             | _ => let n := eval cbv in (Z.to_nat i) in
                    change (Z.to_nat i) with n
             end
         end;
  cbn [set_nth]; index_simpl; cbn [set_nth].

(** Closed goals about the ranges of concrete field values. *)
Ltac solve_wf :=
  repeat first [split | constructor]; vm_compute; congruence.

(** Closes a case of a case analysis: by computation, by arithmetic, or because
    a hypothesis is absurd. *)
Ltac absurd_case :=
  first
    [ reflexivity
    | lia
    | exfalso; lia
    | match goal with
      | H : exists _, _ = _ |- _ => destruct H; discriminate
      | H : _ /\ _ |- _ => exfalso; decompose [and] H; lia
      end ].

(** * Properties *)

(** ** The test vectors evaluate as in the test files *)

Example test_option_marshal_ok :
  Option.MarshalBinary opt1 = Ok [0x00; 0x01; 0x82; 0x01; 0; 1; 2; 3].
Proof. reflexivity. Qed.

Example test_option_marshal_length_ok :
  Option.MarshalBinary (Option.mk 0 false 0 (Bytes (make 124)))
  = Ok ([0; 0; 0; 0x1f] ++ make 124).
Proof. reflexivity. Qed.

Example test_option_unmarshal_reserved :
  Option.UnmarshalBinary Option.zero [0; 0; 0; 0xe1; 1; 2; 3; 4]
  = (Option.mk 0 false 0 (Bytes [1; 2; 3; 4]), None).
Proof. reflexivity. Qed.

Example test_option_unmarshal_empty :
  Option.UnmarshalBinary Option.zero [0; 0; 0; 0]
  = (Option.mk 0 false 0 (Bytes []), None).
Proof. reflexivity. Qed.

Example test_header_marshal_all : Header.MarshalBinary hdr_all = Ok hdr_all_bytes.
Proof. reflexivity. Qed.

Example test_header_unmarshal_all :
  Header.UnmarshalBinary Header.zero hdr_all_bytes = Some (hdr_all, None).
Proof. reflexivity. Qed.

Example test_header_offset_two_options :
  Header.unmarshalBinaryOffset Header.zero (hdr_all_bytes ++ [1; 2; 3; 4])
  = Some (hdr_all, Ok 28).
Proof. reflexivity. Qed.

Example test_header_unmarshal_short :
  Header.UnmarshalBinary Header.zero (make 7) = Some (Header.zero, Some ErrUnexpectedEOF).
Proof. reflexivity. Qed.

(** ** Slices and buffers *)

Lemma len_nonneg {A : Type} (l : list A) : 0 <= len l.
Proof. unfold len. lia. Qed.

Lemma len_app {A : Type} (l1 l2 : list A) : len (l1 ++ l2) = len l1 + len l2.
Proof. unfold len. rewrite length_app. lia. Qed.

Lemma len_cons {A : Type} (x : A) (l : list A) : len (x :: l) = 1 + len l.
Proof. unfold len. simpl length. lia. Qed.

Lemma make_add (n : nat) (m : Z) :
  0 <= m -> make (Z.of_nat n + m) = repeat 0 n ++ make m.
Proof.
  intros Hm. unfold make.
  rewrite Z2Nat.inj_add, Nat2Z.id by lia.
  apply repeat_app.
Qed.

Lemma make_len {A : Type} (l : list A) : make (len l) = repeat 0 (length l).
Proof. unfold make, len. now rewrite Nat2Z.id. Qed.

Lemma copy_make (src : list Z) : copy (make (len src)) src = src.
Proof.
  unfold copy. rewrite make_len, repeat_length, firstn_all.
  rewrite skipn_all2 by (rewrite repeat_length; lia).
  apply app_nil_r.
Qed.

Lemma slice_from_app {A : Type} (l1 l2 : list A) :
  slice_from (l1 ++ l2) (len l1) = l2.
Proof.
  unfold slice_from, len. rewrite Nat2Z.id, skipn_app, skipn_all, Nat.sub_diag.
  reflexivity.
Qed.

(** ** Bit-level facts *)

Lemma land_shiftl_low (hi lo n : Z) :
  0 <= n -> 0 <= lo < 2 ^ n -> Z.land (Z.shiftl hi n) lo = 0.
Proof.
  intros Hn Hlo. apply Z.bits_inj'. intros k Hk.
  rewrite Z.land_spec, Z.bits_0.
  destruct (Z.lt_ge_cases k n) as [Hlt | Hge].
  - now rewrite Z.shiftl_spec_low.
  - replace lo with (lo mod 2 ^ n) by (apply Z.mod_small; lia).
    rewrite Z.mod_pow2_bits_high by lia. apply andb_false_r.
Qed.

Lemma lor_shiftl_low (hi lo n : Z) :
  0 <= n -> 0 <= lo < 2 ^ n -> Z.lor lo (Z.shiftl hi n) = hi * 2 ^ n + lo.
Proof.
  intros Hn Hlo.
  pose proof (Z.add_lor_land (Z.shiftl hi n) lo) as H.
  rewrite land_shiftl_low, Z.add_0_r in H by assumption.
  rewrite Z.lor_comm, H, Z.shiftl_mul_pow2 by assumption. reflexivity.
Qed.

Lemma shiftr_div (a n : Z) : 0 <= n -> Z.shiftr a n = a / 2 ^ n.
Proof. apply Z.shiftr_div_pow2. Qed.

Lemma land_mask (a n : Z) : 0 <= n -> Z.land a (2 ^ n - 1) = a mod 2 ^ n.
Proof.
  intros Hn. rewrite <- Z.land_ones by assumption.
  now rewrite Z.ones_equiv, Z.sub_1_r.
Qed.

Lemma to_uint8_small (x : Z) : is_uint8 x -> to_uint8 x = x.
Proof. unfold is_uint8, to_uint8. intros H. now apply Z.mod_small. Qed.

Lemma uint16_bytes (v : Z) :
  is_uint16 v ->
  BigEndian.Uint16 [to_uint8 (Z.shiftr v 8); to_uint8 v] = v.
Proof.
  unfold is_uint16, BigEndian.Uint16, to_uint8. index_simpl. intros Hv.
  rewrite shiftr_div by lia.
  rewrite lor_shiftl_low by (try apply Z.mod_pos_bound; lia).
  change (2 ^ 8) with 256 in *. change (2 ^ 16) with 65536 in *.
  Z.div_mod_to_equations. lia.
Qed.

Lemma uint32_vni_bytes (v : Z) :
  0 <= v < 2 ^ 24 ->
  let w := to_uint32 (Z.shiftl (to_uint32 v) 8) in
  Z.shiftr
    (BigEndian.Uint32 [to_uint8 (Z.shiftr w 24); to_uint8 (Z.shiftr w 16);
                       to_uint8 (Z.shiftr w 8); to_uint8 w]) 8 = v.
Proof.
  intros Hv w.
  assert (Hw : w = v * 256).
  { unfold w, to_uint32. rewrite (Z.mod_small v) by lia.
    rewrite Z.shiftl_mul_pow2 by lia. apply Z.mod_small.
    change (2 ^ 8) with 256. change (2 ^ 24) with 16777216 in Hv.
    change (2 ^ 32) with 4294967296. lia. }
  rewrite Hw. clear w Hw.
  unfold BigEndian.Uint32, to_uint8. index_simpl.
  rewrite !shiftr_div by lia.
  set (b3 := (v * 256) mod 2 ^ 8).
  set (b2 := (v * 256 / 2 ^ 8) mod 2 ^ 8).
  set (b1 := (v * 256 / 2 ^ 16) mod 2 ^ 8).
  set (b0 := (v * 256 / 2 ^ 24) mod 2 ^ 8).
  assert (H3 : 0 <= b3 < 2 ^ 8) by (apply Z.mod_pos_bound; lia).
  assert (H2 : 0 <= b2 < 2 ^ 8) by (apply Z.mod_pos_bound; lia).
  assert (H1 : 0 <= b1 < 2 ^ 8) by (apply Z.mod_pos_bound; lia).
  assert (H0 : 0 <= b0 < 2 ^ 8) by (apply Z.mod_pos_bound; lia).
  rewrite (lor_shiftl_low b2 b3 8) by lia.
  rewrite (lor_shiftl_low b1 _ 16)
    by (change (2 ^ 16) with 65536; change (2 ^ 8) with 256 in *; lia).
  rewrite (lor_shiftl_low b0 _ 24)
    by (change (2 ^ 24) with 16777216; change (2 ^ 16) with 65536;
        change (2 ^ 8) with 256 in *; lia).
  subst b0 b1 b2 b3.
  change (2 ^ 8) with 256 in *. change (2 ^ 16) with 65536 in *.
  change (2 ^ 24) with 16777216 in *.
  Z.div_mod_to_equations. lia.
Qed.

(** ** Wire format of an option *)

Lemma Ok_inj {A : Type} (x y : A) : Ok x = Ok y -> x = y.
Proof. now intros [= ->]. Qed.

Lemma option_marshal_wire (o : Option.t) (b : list Z) :
  Option.MarshalBinary o = Ok b -> b = option_wire o.
Proof.
  unfold Option.MarshalBinary, option_wire.
  destruct (negb _); [discriminate |].
  destruct (_ >? _); [discriminate |].
  destruct (_ >? _); [discriminate |].
  intros H. apply Ok_inj in H. subst b.
  set (data := elems (Option.Data o)).
  change geneve.optionHeaderLen with (Z.of_nat 4).
  rewrite make_add by apply len_nonneg. cbn [repeat app].
  unfold copy_at. change (Z.to_nat (Z.of_nat 4)) with 4%nat.
  destruct (Option.FlagCritical o); stores_simpl;
    unfold slice_from; change (Z.to_nat (Z.of_nat 4)) with 4%nat;
    cbn [firstn skipn app]; rewrite copy_make; reflexivity.
Qed.

Lemma rem4 (n : Z) : 0 <= n -> Z.rem n 4 = n mod 4.
Proof. intros. apply Z.rem_mod_nonneg; lia. Qed.

Lemma quot4 (n : Z) : 0 <= n -> Z.quot n 4 = n / 4.
Proof. intros. apply Z.quot_div_nonneg; lia. Qed.

(** The three checks of [Option.MarshalBinary], as one case analysis. *)
Lemma option_marshal_cases (o : Option.t) :
  let n := len (elems (Option.Data o)) in
  (n mod 4 <> 0 /\ Option.MarshalBinary o = Err errInvalidOptionDataLength) \/
  (n mod 4 = 0 /\ Option.Type_ o > 127 /\
   Option.MarshalBinary o = Err errInvalidOptionType) \/
  (n mod 4 = 0 /\ Option.Type_ o <= 127 /\ n / 4 > 31 /\
   Option.MarshalBinary o = Err errInvalidOptionLength) \/
  (n mod 4 = 0 /\ Option.Type_ o <= 127 /\ n / 4 <= 31 /\
   Option.MarshalBinary o = Ok (option_wire o)).
Proof.
  intros n.
  assert (Hn : 0 <= n) by apply len_nonneg.
  destruct (Option.MarshalBinary o) as [b | e] eqn:E.
  - apply option_marshal_wire in E as Hb. subst b. revert E.
    unfold Option.MarshalBinary. fold n. rewrite rem4, quot4 by assumption.
    change geneve.maxOptionType with 127. change geneve.maxOptionLength with 31.
    destruct (n mod 4 =? 0) eqn:E1; [| discriminate]. simpl negb. cbv iota.
    destruct (Option.Type_ o >? 127) eqn:E2; [discriminate |].
    destruct (n / 4 >? 31) eqn:E3; [discriminate |]. intros _.
    right. right. right. repeat split; lia.
  - revert E. unfold Option.MarshalBinary. fold n.
    rewrite rem4, quot4 by assumption.
    change geneve.maxOptionType with 127. change geneve.maxOptionLength with 31.
    destruct (n mod 4 =? 0) eqn:E1; simpl negb; cbv iota.
    2:{ intros [= <-]. left. split; [lia | reflexivity]. }
    destruct (Option.Type_ o >? 127) eqn:E2.
    { intros [= <-]. right. left. repeat split; lia. }
    destruct (n / 4 >? 31) eqn:E3; [| discriminate].
    intros [= <-]. right. right. left. repeat split; lia.
Qed.

Lemma option_marshal_ok_inv (o : Option.t) (b : list Z) :
  Option.MarshalBinary o = Ok b ->
  let n := len (elems (Option.Data o)) in
  n mod 4 = 0 /\ Option.Type_ o <= 127 /\ n / 4 <= 31 /\ b = option_wire o.
Proof.
  intros E n.
  destruct (option_marshal_cases o) as [[_ H] | [(_ & _ & H) | [(_ & _ & _ & H) | H]]];
    fold n in H; try congruence.
  destruct H as (H1 & H2 & H3 & H4). rewrite E in H4. apply Ok_inj in H4. auto.
Qed.

Lemma option_wire_len (o : Option.t) :
  len (option_wire o) = 4 + len (elems (Option.Data o)).
Proof. unfold option_wire. rewrite len_app. reflexivity. Qed.

Lemma critical_type_byte (c : bool) (ty : Z) :
  0 <= ty <= 127 ->
  let x := Z.lor (if c then Z.shiftl 1 7 else 0) ty in
  (Z.shiftr x 7 =? 1) = c /\ Z.land x 0x7f = ty /\ is_uint8 x.
Proof.
  intros Hty x. subst x. unfold is_uint8.
  change 0x7f with (2 ^ 7 - 1). rewrite land_mask, shiftr_div by lia.
  destruct c.
  - rewrite Z.lor_comm, lor_shiftl_low by (change (2 ^ 7) with 128; lia).
    change (2 ^ 7) with 128. change (2 ^ 8) with 256.
    split; [apply Z.eqb_eq | split]; Z.div_mod_to_equations; lia.
  - rewrite Z.lor_0_l. change (2 ^ 7) with 128. change (2 ^ 8) with 256.
    split; [apply Z.eqb_neq | split]; Z.div_mod_to_equations; lia.
Qed.

(** Decoding the bytes of an option that are followed by any 4-aligned tail. *)
Lemma option_unmarshal_wire (o r : Option.t) (rest : list Z) :
  Option.wf o ->
  (exists b, Option.MarshalBinary o = Ok b) ->
  len rest mod 4 = 0 ->
  Option.UnmarshalBinary r (option_wire o ++ rest) = (Option.decoded o, None).
Proof.
  intros (Hc & Ht & _) [b Hb] Hrest.
  apply option_marshal_ok_inv in Hb. cbv zeta in Hb.
  destruct Hb as (H4 & Hty & Hld & _).
  set (data := elems (Option.Data o)) in *.
  assert (Hn : 0 <= len data) by apply len_nonneg.
  assert (Hr : 0 <= len rest) by apply len_nonneg.
  unfold Option.UnmarshalBinary.
  rewrite len_app, option_wire_len. fold data.
  change geneve.optionHeaderLen with 4.
  destruct (4 + len data + len rest <? 4) eqn:E1; [lia |].
  rewrite rem4 by lia.
  replace ((4 + len data + len rest) mod 4 =? 0) with true
    by (symmetry; apply Z.eqb_eq; Z.div_mod_to_equations; lia).
  simpl negb. cbv iota.
  unfold option_wire. fold data. cbn [app]. index_simpl.
  rewrite quot4 by assumption.
  assert (Hl : Z.land (to_uint8 (len data / 4)) 31 * 4 = len data).
  { unfold to_uint8. rewrite Z.mod_small
      by (change (2 ^ 8) with 256; Z.div_mod_to_equations; lia).
    change 31 with (2 ^ 5 - 1). rewrite land_mask by lia.
    change (2 ^ 5) with 32. Z.div_mod_to_equations. lia. }
  rewrite Hl.
  destruct (4 + len data + len rest <? 4 + len data) eqn:E2; [lia |].
  unfold slice, slice_from.
  change (Z.to_nat 0) with 0%nat. change (Z.to_nat (2 - 0)) with 2%nat.
  change (Z.to_nat 4) with 4%nat. cbn [skipn firstn].
  replace (Z.to_nat (4 + len data - 4)) with (length data) by (unfold len; lia).
  rewrite firstn_app, firstn_all, Nat.sub_diag. cbn [firstn]. rewrite app_nil_r.
  rewrite copy_make, uint16_bytes by assumption.
  unfold is_uint8 in Ht.
  destruct (critical_type_byte (Option.FlagCritical o) (Option.Type_ o)) as (F1 & F2 & _);
    [lia |].
  change 127 with 0x7f. rewrite F1, F2. reflexivity.
Qed.

Lemma len_slice {A : Type} (b : list A) (i j : Z) :
  0 <= i <= j -> j <= len b -> len (slice b i j) = j - i.
Proof.
  unfold slice, len. intros Hij Hj.
  rewrite length_firstn, length_skipn. lia.
Qed.

Lemma copy_make_slice (b : list Z) (i n : Z) :
  0 <= i -> 0 <= n -> i + n <= len b ->
  copy (make n) (slice b i (i + n)) = slice b i (i + n).
Proof.
  intros Hi Hn Hb.
  rewrite <- (copy_make (slice b i (i + n))) at 2.
  rewrite len_slice by lia. do 2 f_equal. lia.
Qed.

Lemma four_bytes {A : Type} (b : list A) :
  4 <= len b -> exists x0 x1 x2 x3 rest, b = x0 :: x1 :: x2 :: x3 :: rest.
Proof.
  unfold len. intros H.
  destruct b as [| x0 [| x1 [| x2 [| x3 rest]]]]; simpl in H; try lia.
  now exists x0, x1, x2, x3, rest.
Qed.

Lemma bit7_of_byte (x : Z) :
  is_uint8 x -> (Z.shiftr x 7 =? 1) = Z.testbit x 7.
Proof.
  unfold is_uint8. change (2 ^ 8) with 256. intros Hx.
  rewrite Z.testbit_odd, shiftr_div by lia. change (2 ^ 7) with 128.
  assert (H : x / 128 = 0 \/ x / 128 = 1) by (Z.div_mod_to_equations; lia).
  destruct H as [-> | ->]; reflexivity.
Qed.

Lemma land_0x1f_range (x : Z) : 0 <= Z.land x 0x1f * 4 <= 124.
Proof.
  change 0x1f with (2 ^ 5 - 1). rewrite land_mask by lia.
  change (2 ^ 5) with 32. Z.div_mod_to_equations. lia.
Qed.

Lemma land_0x3f_range (x : Z) : 0 <= Z.land x 0x3f * 4 <= 252.
Proof.
  change 0x3f with (2 ^ 6 - 1). rewrite land_mask by lia.
  change (2 ^ 6) with 64. Z.div_mod_to_equations. lia.
Qed.

(** The checks of [Option.UnmarshalBinary], as one case analysis; the
    receiver is untouched on every error path. *)
Lemma option_unmarshal_cases (o : Option.t) (b : list Z) :
  let n := len b in
  let ol := Z.land (index b 3) 0x1f * 4 in
  let r := Option.UnmarshalBinary o b in
  (n < 4 /\ r = (o, Some ErrUnexpectedEOF)) \/
  (4 <= n /\ n mod 4 <> 0 /\ r = (o, Some errInvalidOptionLength)) \/
  (4 <= n /\ n mod 4 = 0 /\ n < 4 + ol /\ r = (o, Some ErrUnexpectedEOF)) \/
  (4 <= n /\ n mod 4 = 0 /\ 4 + ol <= n /\
   r = (Option.mk (BigEndian.Uint16 (slice b 0 2))
                  (Z.shiftr (index b 2) 7 =? 1)
                  (Z.land (index b 2) 0x7f)
                  (Bytes (slice b 4 (4 + ol))), None)).
Proof.
  intros n ol r. subst r. unfold Option.UnmarshalBinary.
  fold n. fold ol. change geneve.optionHeaderLen with 4.
  assert (Hn : 0 <= n) by apply len_nonneg.
  pose proof (land_0x1f_range (index b 3)) as Hol. fold ol in Hol.
  rewrite rem4 by assumption.
  destruct (n <? 4) eqn:E1; [left; split; [lia | reflexivity] |].
  destruct (n mod 4 =? 0) eqn:E2; simpl negb; cbv iota;
    [| right; left; repeat split; lia].
  destruct (n <? 4 + ol) eqn:E3;
    [right; right; left; repeat split; lia |].
  right. right. right.
  rewrite copy_make_slice by (unfold n in *; lia).
  repeat split; lia.
Qed.

(** ** Option codec: specification *)

(** C7. [Option.MarshalBinary] fails exactly when one of its three checks
    fires, in this order: a data length that is not a multiple of 4 gives
    [errInvalidOptionDataLength]; otherwise a type above 127 gives
    [errInvalidOptionType]; otherwise more than 31 data words give
    [errInvalidOptionLength]; otherwise it succeeds. *)
Theorem option_marshal_failure_order (o : Option.t) :
  let n := len (elems (Option.Data o)) in
  let r := Option.MarshalBinary o in
  (n mod 4 <> 0 -> r = Err errInvalidOptionDataLength) /\
  (n mod 4 = 0 -> Option.Type_ o > 127 -> r = Err errInvalidOptionType) /\
  (n mod 4 = 0 -> Option.Type_ o <= 127 -> n / 4 > 31 ->
   r = Err errInvalidOptionLength) /\
  (n mod 4 = 0 -> Option.Type_ o <= 127 -> n / 4 <= 31 -> exists b, r = Ok b) /\
  ((exists e, r = Err e) <->
   n mod 4 <> 0 \/ Option.Type_ o > 127 \/ n / 4 > 31).
Proof.
  intros n r. subst r.
  destruct (option_marshal_cases o)
    as [(H1 & E) | [(H1 & H2 & E) | [(H1 & H2 & H3 & E) | (H1 & H2 & H3 & E)]]];
    fold n in H1; try fold n in H3; rewrite E.
  all: repeat split; intros; try (exfalso; lia); try lia; eauto.
  destruct H as [e He]. discriminate.
Qed.

(** C8. [Option.UnmarshalBinary] fails exactly when one of its three checks
    fires, in this order: fewer than 4 bytes give a short read; otherwise a
    total length that is not a multiple of 4 gives [errInvalidOptionLength];
    otherwise, with [ol = (buf[3] & 0x1F) * 4], fewer than [4 + ol] bytes give
    a short read. On success [Type] is [buf[2] & 0x7F], [FlagCritical] is bit
    7 of [buf[2]], [OptionClass] is the big-endian value of bytes 0-1 and
    [Data] is the bytes [[4, 4 + ol)]. *)
Theorem option_unmarshal_failure_order (o : Option.t) (b : list Z) :
  is_bytes b ->
  let n := len b in
  let ol := Z.land (index b 3) 0x1f * 4 in
  let r := Option.UnmarshalBinary o b in
  (n < 4 -> r = (o, Some ErrUnexpectedEOF)) /\
  (4 <= n -> n mod 4 <> 0 -> r = (o, Some errInvalidOptionLength)) /\
  (4 <= n -> n mod 4 = 0 -> n < 4 + ol -> r = (o, Some ErrUnexpectedEOF)) /\
  (4 <= n -> n mod 4 = 0 -> 4 + ol <= n ->
   exists o', r = (o', None) /\
     Option.Type_ o' = Z.land (index b 2) 0x7f /\
     Option.FlagCritical o' = Z.testbit (index b 2) 7 /\
     Option.OptionClass o' = index b 0 * 256 + index b 1 /\
     Option.Data o' = Bytes (slice b 4 (4 + ol))) /\
  ((exists e, snd r = Some e) <-> n < 4 \/ n mod 4 <> 0 \/ n < 4 + ol).
Proof.
  intros Hb n ol r.
  destruct (option_unmarshal_cases o b)
    as [(H1 & E) | [(H1 & H2 & E) | [(H1 & H2 & H3 & E) | (H1 & H2 & H3 & E)]]];
    fold n in H1; try fold n in H2; try fold n ol in H3; fold r in E; rewrite E.
  - repeat split; intros; try (exfalso; lia); try lia; cbn [snd]; eauto.
  - repeat split; intros; try (exfalso; lia); try lia; cbn [snd]; eauto.
  - repeat split; intros; try (exfalso; lia); try lia; cbn [snd]; eauto.
  - repeat split; intros; try (exfalso; lia); try lia.
    + eexists. split; [reflexivity |]. cbn [Option.Type_ Option.FlagCritical
        Option.OptionClass Option.Data].
      destruct (four_bytes b H1) as (x0 & x1 & x2 & x3 & rest & ->).
      inversion Hb as [| ? ? Hx0 Hb1]; subst.
      inversion Hb1 as [| ? ? Hx1 Hb2]; subst.
      inversion Hb2 as [| ? ? Hx2 Hb3]; subst.
      repeat split.
      * index_simpl. now apply bit7_of_byte.
      * unfold slice. change (Z.to_nat 0) with 0%nat.
        change (Z.to_nat (2 - 0)) with 2%nat. cbn [skipn firstn].
        unfold BigEndian.Uint16. index_simpl.
        unfold is_uint8 in Hx1. now rewrite lor_shiftl_low by lia.
    + destruct H as [e He]. discriminate.
Qed.

(** C6. An option that marshals successfully yields [4 + len(Data)] bytes,
    and unmarshalling them (into any receiver) gives back the same
    [OptionClass], [FlagCritical], [Type] and [Data] bytes; the decoded [Data]
    is a non-nil slice, also when it is empty. *)
Theorem option_roundtrip (o r : Option.t) (b : list Z) :
  Option.wf o ->
  Option.MarshalBinary o = Ok b ->
  len b = 4 + len (elems (Option.Data o)) /\
  exists o', Option.UnmarshalBinary r b = (o', None) /\
    Option.OptionClass o' = Option.OptionClass o /\
    Option.FlagCritical o' = Option.FlagCritical o /\
    Option.Type_ o' = Option.Type_ o /\
    elems (Option.Data o') = elems (Option.Data o) /\
    is_nil (Option.Data o') = false.
Proof.
  intros Hwf Hb.
  pose proof (option_unmarshal_wire o r [] Hwf (ex_intro _ b Hb) eq_refl) as Hu.
  apply option_marshal_ok_inv in Hb. destruct Hb as (_ & _ & _ & ->).
  rewrite app_nil_r in Hu. split; [apply option_wire_len |].
  exists (Option.decoded o). split; [exact Hu |].
  repeat split.
Qed.

(** ** Wire format of a header *)

Lemma marshalOptions_inv (os : list Option.t) :
  forall acc obs,
    Header.marshalOptions os acc = Ok obs ->
    Forall (fun o => exists b, Option.MarshalBinary o = Ok b) os /\
    obs = acc ++ options_wire os.
Proof.
  induction os as [| o os IH]; intros acc obs H; cbn [Header.marshalOptions] in H.
  - apply Ok_inj in H. subst. split; [constructor |].
    unfold options_wire. cbn. now rewrite app_nil_r.
  - destruct (Option.MarshalBinary o) as [ob |] eqn:E; [| discriminate].
    apply IH in H. destruct H as [HF ->].
    pose proof (option_marshal_ok_inv o ob E) as (_ & _ & _ & ->).
    split.
    + constructor; [eauto | assumption].
    + unfold options_wire. cbn [map concat]. now rewrite app_assoc.
Qed.

Lemma marshalOptions_ok (os : list Option.t) :
  forall acc,
    Forall (fun o => exists b, Option.MarshalBinary o = Ok b) os ->
    Header.marshalOptions os acc = Ok (acc ++ options_wire os).
Proof.
  induction os as [| o os IH]; intros acc HF; cbn [Header.marshalOptions].
  - unfold options_wire. cbn. now rewrite app_nil_r.
  - inversion HF as [| ? ? [ob E] HF']; subst. rewrite E.
    pose proof (option_marshal_ok_inv o ob E) as (_ & _ & _ & ->).
    rewrite IH by assumption.
    unfold options_wire. cbn [map concat]. now rewrite app_assoc.
Qed.

Lemma options_wire_cons (o : Option.t) (os : list Option.t) :
  options_wire (o :: os) = option_wire o ++ options_wire os.
Proof. reflexivity. Qed.

Lemma options_wire_len_mod4 (os : list Option.t) :
  Forall (fun o => exists b, Option.MarshalBinary o = Ok b) os ->
  len (options_wire os) mod 4 = 0.
Proof.
  induction 1 as [| o os [b E] _ IH]; [reflexivity |].
  rewrite options_wire_cons, len_app, option_wire_len.
  apply option_marshal_ok_inv in E as (H4 & _). cbv zeta in H4.
  Z.div_mod_to_equations. lia.
Qed.

(** The bytes [Header.MarshalBinary] returns. *)
Lemma header_marshal_wire (h : Header.t) (b : list Z) :
  Header.MarshalBinary h = Ok b ->
  Header.Version h = 0 /\ Header.VNI h <= geneve.MaxVNI /\
  Forall (fun o => exists ob, Option.MarshalBinary o = Ok ob) (Header.Options h) /\
  b = header_wire h (len (options_wire (Header.Options h)))
      ++ options_wire (Header.Options h).
Proof.
  unfold Header.MarshalBinary, VNI_Valid. change geneve.Version with 0.
  destruct (Header.Version h =? 0) eqn:E1; [| discriminate].
  destruct (Header.VNI h <=? geneve.MaxVNI) eqn:E2; [| discriminate].
  simpl negb. cbv iota.
  destruct (Header.marshalOptions (Header.Options h) []) as [obs |] eqn:E3;
    [| discriminate].
  apply marshalOptions_inv in E3 as [HF Hobs]. cbn [app] in Hobs. subst obs.
  intros H. apply Ok_inj in H. subst b.
  repeat split; [lia | lia | assumption |].
  f_equal. change (make geneve.headerLen) with [0; 0; 0; 0; 0; 0; 0; 0].
  unfold header_wire.
  destruct (Header.FlagOAM h), (Header.FlagCritical h); stores_simpl; reflexivity.
Qed.

(** ** Decoding a fixed header *)

Lemma eight_bytes {A : Type} (b : list A) :
  8 <= len b ->
  exists a0 a1 a2 a3 a4 a5 a6 a7 rest,
    b = a0 :: a1 :: a2 :: a3 :: a4 :: a5 :: a6 :: a7 :: rest.
Proof.
  unfold len. intros H.
  destruct b as [| a0 [| a1 [| a2 [| a3 [| a4 [| a5 [| a6 [| a7 rest]]]]]]]];
    simpl in H; try lia.
  now exists a0, a1, a2, a3, a4, a5, a6, a7, rest.
Qed.

Lemma unmarshal_short (r : Header.t) (b : list Z) :
  len b < 8 ->
  Header.unmarshalBinaryOffset r b = Some (r, Err ErrUnexpectedEOF).
Proof.
  intros H. unfold Header.unmarshalBinaryOffset.
  change geneve.headerLen with 8.
  destruct (len b <? 8) eqn:E; [reflexivity | lia].
Qed.

Lemma unmarshal_bytes8 (r : Header.t) (a0 a1 a2 a3 a4 a5 a6 a7 : Z) (rest : list Z) :
  let b := a0 :: a1 :: a2 :: a3 :: a4 :: a5 :: a6 :: a7 :: rest in
  let ol := Z.land a0 0x3f * 4 in
  Header.unmarshalBinaryOffset r b =
    if len rest <? ol then Some (Header.set_Version r (Z.shiftr a0 6), Err ErrUnexpectedEOF)
    else if ol =? 0 then Some (fixed_fields r a0 a1 a2 a3 a4 a5 a6 a7, Ok 8)
    else Header.optionsLoop (Z.to_nat ol) b ol 8 (fixed_fields r a0 a1 a2 a3 a4 a5 a6 a7).
Proof.
  intros b ol. unfold Header.unmarshalBinaryOffset.
  change geneve.headerLen with 8.
  assert (Hlen : len b = 8 + len rest).
  { unfold b. rewrite !len_cons. lia. }
  assert (Hr : 0 <= len rest) by apply len_nonneg.
  rewrite Hlen.
  destruct (8 + len rest <? 8) eqn:E1; [lia |].
  change (index b 0) with a0. change (index b 1) with a1. fold ol.
  replace (8 + len rest <? 8 + ol) with (len rest <? ol)
    by (destruct (len rest <? ol) eqn:E2; symmetry;
        [apply Z.ltb_lt | apply Z.ltb_ge]; lia).
  destruct (len rest <? ol); [reflexivity |].
  reflexivity.
Qed.

(** ** The option loop *)

Lemma set_Options_same (h : Header.t) : Header.set_Options h (Header.Options h) = h.
Proof. now destruct h. Qed.

Section OptionsLoop.

Variables (b : list Z) (ol : Z).

(** The loop only appends to [Options]: what it appends and what it returns
    do not depend on the receiver. *)
Lemma optionsLoop_appends (fuel : nat) :
  forall i h h' r,
    Header.optionsLoop fuel b ol i h = Some (h', r) ->
    exists opts,
      h' = Header.set_Options h (Header.Options h ++ opts) /\
      forall g, Header.optionsLoop fuel b ol i g
                = Some (Header.set_Options g (Header.Options g ++ opts), r).
Proof.
  induction fuel as [| fuel IH]; intros i h h' r H; cbn [Header.optionsLoop] in *.
  - destruct (i <=? ol); [discriminate |]. injection H as <- <-.
    exists []. split; [| intros g]; now rewrite app_nil_r, set_Options_same.
  - destruct (i <=? ol).
    + destruct (Option.UnmarshalBinary Option.zero (slice_from b i)) as [o [e |]].
      * injection H as <- <-. exists [].
        split; [| intros g]; now rewrite app_nil_r, set_Options_same.
      * apply IH in H. destruct H as (opts & -> & Hg).
        exists (o :: opts). cbn [Header.Options Header.set_Options].
        split.
        -- unfold Header.set_Options. cbn. now rewrite <- app_assoc.
        -- intros g. rewrite Hg. unfold Header.set_Options. cbn.
           now rewrite <- app_assoc.
    + injection H as <- <-. exists [].
      split; [| intros g]; now rewrite app_nil_r, set_Options_same.
Qed.

(** The loop ends within [ol - i + 1] iterations. *)
Lemma optionsLoop_total (fuel : nat) :
  forall i h,
    ol - i < Z.of_nat fuel ->
    exists res, Header.optionsLoop fuel b ol i h = Some res.
Proof.
  induction fuel as [| fuel IH]; intros i h Hf; cbn [Header.optionsLoop].
  - destruct (i <=? ol) eqn:E; [lia | eauto].
  - destruct (i <=? ol) eqn:E; [| eauto].
    destruct (Option.UnmarshalBinary Option.zero (slice_from b i)) as [o [e |]];
      [eauto |].
    apply IH. change geneve.optionHeaderLen with 4.
    pose proof (len_nonneg (elems (Option.Data o))). lia.
Qed.

(** Once it has enough fuel, the loop does not depend on it. *)
Lemma optionsLoop_fuel (fuel : nat) :
  forall i h res extra,
    Header.optionsLoop fuel b ol i h = Some res ->
    Header.optionsLoop (fuel + extra) b ol i h = Some res.
Proof.
  induction fuel as [| fuel IH]; intros i h res extra H.
  - cbn [Header.optionsLoop] in H.
    destruct (i <=? ol) eqn:E; [discriminate |].
    destruct (0 + extra)%nat; cbn [Header.optionsLoop]; now rewrite E.
  - cbn [Nat.add Header.optionsLoop] in *.
    destruct (i <=? ol); [| assumption].
    destruct (Option.UnmarshalBinary Option.zero (slice_from b i)) as [o [e |]];
      [assumption |].
    now apply IH.
Qed.

End OptionsLoop.

(** [unmarshalBinaryOffset] always returns. *)
Lemma unmarshalBinaryOffset_total (h : Header.t) (b : list Z) :
  exists res, Header.unmarshalBinaryOffset h b = Some res.
Proof.
  destruct (Z.lt_ge_cases (len b) 8) as [Hlt | Hge].
  - rewrite unmarshal_short by assumption. eauto.
  - destruct (eight_bytes b Hge)
      as (a0 & a1 & a2 & a3 & a4 & a5 & a6 & a7 & rest & ->).
    rewrite unmarshal_bytes8.
    pose proof (land_0x3f_range a0) as Hol.
    destruct (len rest <? _); [eauto |].
    destruct (_ =? 0); [eauto |].
    apply optionsLoop_total. lia.
Qed.

Lemma options_wire_tail_len (o : Option.t) (os : list Option.t) :
  Forall marshals (o :: os) ->
  last_has_data (o :: os) ->
  8 <= len (options_wire (o :: os)).
Proof.
  intros HF Hl. inversion HF as [| ? ? [b E] HF']; subst.
  rewrite options_wire_cons, len_app, option_wire_len.
  apply option_marshal_ok_inv in E as (H4 & _). cbv zeta in H4.
  pose proof (len_nonneg (elems (Option.Data o))) as Hn.
  destruct os as [| o' os'].
  - cbn [last_has_data] in Hl. change (len (options_wire [])) with 0.
    Z.div_mod_to_equations. lia.
  - rewrite options_wire_cons, len_app, option_wire_len.
    pose proof (len_nonneg (elems (Option.Data o'))).
    pose proof (len_nonneg (options_wire os')). lia.
Qed.

Lemma last_has_data_tail (o : Option.t) (os : list Option.t) :
  last_has_data (o :: os) -> last_has_data os.
Proof. destruct os; [constructor | exact (fun H => H)]. Qed.

(** On the bytes of options that marshal, followed by a 4-aligned payload, the
    loop decodes every option and stops at the end of the option vector,
    provided the last option carries data. *)
Lemma optionsLoop_wire (os : list Option.t) (P : list Z) :
  forall fuel pre h ol,
    Forall Option.wf os ->
    Forall marshals os ->
    last_has_data os ->
    len P mod 4 = 0 ->
    ol + 8 = len pre + len (options_wire os) ->
    (length os <= fuel)%nat ->
    Header.optionsLoop fuel (pre ++ options_wire os ++ P) ol (len pre) h
    = Some (Header.set_Options h (Header.Options h ++ map Option.decoded os),
            Ok (ol + 8)).
Proof.
  induction os as [| o os IH]; intros fuel pre h ol Hwf Hm Hl HP Hol Hf.
  - change (len (options_wire [])) with 0 in Hol.
    assert (E : (len pre <=? ol) = false) by (apply Z.leb_gt; lia).
    destruct fuel; cbn [Header.optionsLoop]; rewrite E;
      cbn [map]; rewrite app_nil_r, set_Options_same; do 3 f_equal; lia.
  - pose proof (options_wire_tail_len o os Hm Hl) as H8.
    assert (E : (len pre <=? ol) = true) by (apply Z.leb_le; lia).
    destruct fuel as [| fuel]; [simpl in Hf; lia |].
    cbn [Header.optionsLoop]. rewrite E.
    rewrite slice_from_app, options_wire_cons, <- app_assoc.
    inversion Hwf as [| ? ? Hwo Hwf']; subst.
    inversion Hm as [| ? ? Hmo Hm']; subst.
    rewrite option_unmarshal_wire; try assumption.
    2:{ rewrite len_app.
        pose proof (options_wire_len_mod4 os Hm') as H4.
        Z.div_mod_to_equations; lia. }
    cbn [Option.decoded Option.Data elems].
    change geneve.optionHeaderLen with 4.
    rewrite <- option_wire_len, <- len_app.
    replace (pre ++ option_wire o ++ options_wire os ++ P)
      with ((pre ++ option_wire o) ++ options_wire os ++ P)
      by now rewrite <- app_assoc.
    rewrite IH; try assumption.
    + cbn [Header.Options Header.set_Options map].
      unfold Header.set_Options. cbn. now rewrite <- app_assoc.
    + now apply last_has_data_tail in Hl.
    + rewrite options_wire_cons, len_app in Hol. rewrite len_app. lia.
    + simpl in Hf. lia.
Qed.

Lemma options_wire_len_lower (os : list Option.t) :
  4 * Z.of_nat (length os) <= len (options_wire os).
Proof.
  induction os as [| o os IH]; [reflexivity |].
  rewrite options_wire_cons, len_app, option_wire_len.
  pose proof (len_nonneg (elems (Option.Data o))). cbn [length]. lia.
Qed.

Lemma flags_byte (oam crit : bool) :
  let x := Z.lor (if oam then Z.shiftl 1 7 else 0) (if crit then Z.shiftl 1 6 else 0) in
  (Z.shiftr x 7 =? 1) = oam /\ (Z.shiftr (Z.land x 0x40) 6 =? 1) = crit.
Proof. destruct oam, crit; split; reflexivity. Qed.

(** Reading back the fixed header that [MarshalBinary] writes for an option
    vector of [n] bytes, [n / 4 <= 63]. *)
Lemma header_wire_fields (h r : Header.t) (n : Z) :
  Header.wf h ->
  Header.Version h = 0 ->
  Header.VNI h <= geneve.MaxVNI ->
  0 <= n -> n mod 4 = 0 -> n / 4 <= 63 ->
  exists a0 a1 a2 a3 a4 a5 a6 a7,
    header_wire h n = [a0; a1; a2; a3; a4; a5; a6; a7] /\
    Z.land a0 0x3f * 4 = n /\
    fixed_fields r a0 a1 a2 a3 a4 a5 a6 a7
    = Header.mk 0 (Header.FlagOAM h) (Header.FlagCritical h)
                (Header.ProtocolType h) (Header.VNI h) (Header.Options r).
Proof.
  intros (_ & Hp & Hv & _) HV Hmax Hn H4 H63.
  unfold header_wire. do 8 eexists. split; [reflexivity |].
  rewrite HV. change (to_uint8 (Z.shiftl 0 6)) with 0. rewrite Z.lor_0_l.
  rewrite quot4 by assumption.
  assert (Hq : to_uint8 (n / 4) = n / 4).
  { apply to_uint8_small. unfold is_uint8. change (2 ^ 8) with 256.
    Z.div_mod_to_equations. lia. }
  rewrite Hq.
  assert (Hl : Z.land (n / 4) 0x3f = n / 4).
  { change 0x3f with (2 ^ 6 - 1). rewrite land_mask by lia.
    apply Z.mod_small. change (2 ^ 6) with 64. Z.div_mod_to_equations. lia. }
  split; [rewrite Hl; Z.div_mod_to_equations; lia |].
  unfold fixed_fields.
  destruct (flags_byte (Header.FlagOAM h) (Header.FlagCritical h)) as [F1 F2].
  rewrite F1, F2.
  assert (Hs : Z.shiftr (n / 4) 6 = 0).
  { rewrite shiftr_div by lia. change (2 ^ 6) with 64.
    Z.div_mod_to_equations. lia. }
  rewrite Hs.
  assert (Hp16 : to_uint16 (Header.ProtocolType h) = Header.ProtocolType h)
    by (apply Z.mod_small; exact Hp).
  rewrite Hp16, uint16_bytes by assumption.
  rewrite uint32_vni_bytes; [reflexivity |].
  unfold is_uint32 in Hv. change geneve.MaxVNI with (2 ^ 24 - 1) in Hmax. lia.
Qed.

(** Decoding the bytes of a header whose options take at most 63 words and
    whose last option carries data, followed by a payload. *)
Lemma header_unmarshal_wire (h r : Header.t) (P : list Z) :
  let os := Header.Options h in
  let n := len (options_wire os) in
  Header.wf h ->
  Header.Version h = 0 ->
  Header.VNI h <= geneve.MaxVNI ->
  Forall marshals os ->
  last_has_data os ->
  n / 4 <= 63 ->
  os = [] \/ len P mod 4 = 0 ->
  Header.unmarshalBinaryOffset r (header_wire h n ++ options_wire os ++ P)
  = Some (Header.mk 0 (Header.FlagOAM h) (Header.FlagCritical h)
                    (Header.ProtocolType h) (Header.VNI h)
                    (Header.Options r ++ map Option.decoded os),
          Ok (8 + n)).
Proof.
  intros os n Hwf HV Hmax Hm Hl H63 HP.
  assert (Hn : 0 <= n) by apply len_nonneg.
  pose proof (options_wire_len_mod4 os Hm) as H4. fold n in H4.
  destruct (header_wire_fields h r n Hwf HV Hmax Hn H4 H63)
    as (a0 & a1 & a2 & a3 & a4 & a5 & a6 & a7 & Hw & Hol & Hff).
  rewrite Hw. cbn [app]. rewrite unmarshal_bytes8. cbv zeta.
  rewrite Hol, Hff, len_app. fold n.
  pose proof (len_nonneg P) as HPn.
  destruct (n + len P <? n) eqn:E1; [lia |].
  destruct (n =? 0) eqn:E2.
  - assert (os = []) as ->.
    { pose proof (options_wire_len_lower os) as Hlow. fold n in Hlow.
      destruct os; [reflexivity | cbn [length] in Hlow; lia]. }
    cbn [map]. rewrite app_nil_r. do 3 f_equal; lia.
  - destruct HP as [HP | HP];
      [apply Z.eqb_neq in E2; exfalso; apply E2; unfold n; rewrite HP; reflexivity |].
    change (a0 :: a1 :: a2 :: a3 :: a4 :: a5 :: a6 :: a7 :: options_wire os ++ P)
      with ([a0; a1; a2; a3; a4; a5; a6; a7] ++ options_wire os ++ P).
    change 8 with (len [a0; a1; a2; a3; a4; a5; a6; a7]) at 1.
    destruct Hwf as (_ & _ & _ & Hwo).
    rewrite optionsLoop_wire; try assumption.
    + unfold Header.set_Options.
      cbn [Header.Version Header.FlagOAM Header.FlagCritical Header.ProtocolType
           Header.VNI Header.Options].
      do 3 f_equal. lia.
    + fold n. change (len [a0; a1; a2; a3; a4; a5; a6; a7]) with 8. lia.
    + pose proof (options_wire_len_lower os) as Hlow. fold n in Hlow. lia.
Qed.

(** ** Header codec: specification *)

(** C1. Round trip of a header. The code does not satisfy it: a header whose
    only option has no data marshals to twelve bytes, and unmarshalling them
    stops before the option (the loop runs while [i <= ol], with [i = 8] and
    [ol = 4]), so the decoded header has no option. *)
Theorem header_roundtrip_fails_on_empty_last_option :
  Header.wf hdr_empty_option /\
  Header.MarshalBinary hdr_empty_option = Ok hdr_empty_option_bytes /\
  Header.unmarshalBinaryOffset Header.zero hdr_empty_option_bytes
  = Some (Header.zero, Ok 8) /\
  Header.Options Header.zero <> Header.Options hdr_empty_option /\
  ~ Header.same Header.zero hdr_empty_option.
Proof.
  split; [| split; [reflexivity | split; [reflexivity | split]]].
  - solve_wf.
  - discriminate.
  - intros (_ & _ & _ & _ & _ & H). inversion H.
Qed.

(** C3. The option loop and the payload offset. The code does not satisfy it:
    on the twelve bytes of a header with one option without data the decoder
    succeeds, the advertised option length is [ol = 4], no option is decoded
    and the returned offset is 8, not [8 + ol = 12]. *)
Theorem offset_differs_from_advertised_length :
  Header.unmarshalBinaryOffset Header.zero hdr_empty_option_bytes
  = Some (Header.zero, Ok 8) /\
  Z.land (index hdr_empty_option_bytes 0) 0x3f * 4 = 4 /\
  Header.optionsLoop 4 hdr_empty_option_bytes 4 8 Header.zero
  = Some (Header.zero, Ok 8) /\
  Header.MarshalBinary hdr_empty_option = Ok hdr_empty_option_bytes.
Proof. repeat split. Qed.

(** The decoder does not check that the options it reads end where the
    advertised option vector ends either: with [ol = 8] and one option of
    eight data bytes it returns offset 20. *)
Example offset_overruns_advertised_length :
  Header.unmarshalBinaryOffset Header.zero
    ([0x02; 0; 0; 0; 0; 0; 0; 0] ++ [0; 0; 0; 0x02] ++ make 8)
  = Some (Header.mk 0 false false 0 0 [Option.mk 0 false 0 (Bytes (make 8))],
          Ok 20).
Proof. reflexivity. Qed.

(** C5. The option word count and byte 0. The code does not satisfy it: a
    header with 64 options without data marshals without error although its
    option vector has 64 words; byte 0 of the output is [0x40], so its low 6
    bits are 0 and its high 2 bits are 1, while [Version] is 0. *)
Theorem marshal_overflows_option_length :
  exists b,
    Header.MarshalBinary hdr_64_options = Ok b /\
    Forall marshals (Header.Options hdr_64_options) /\
    len b = 8 + 64 * 4 /\
    index b 0 = 0x40 /\
    Z.land (index b 0) 0x3f = 0 /\
    Z.shiftr (index b 0) 6 = 1 /\
    Header.Version hdr_64_options = 0.
Proof.
  eexists. split; [vm_compute; reflexivity |].
  split; [| repeat split].
  apply Forall_forall. intros o Ho. apply repeat_spec in Ho. subst o.
  eexists. reflexivity.
Qed.

(** C2, as stated, fails: the encoding of a header with one option, followed
    by a one-byte payload, is rejected with [errInvalidOptionLength], because
    the option decoder is handed [b[i:]], payload included, and refuses a
    length that is not a multiple of 4. *)
Lemma payload_offset_rejects_unaligned_payload :
  Header.MarshalBinary hdr_one_option = Ok hdr_one_option_bytes /\
  Header.unmarshalBinaryOffset Header.zero hdr_one_option_bytes
  = Some (hdr_one_option, Ok 16) /\
  Header.unmarshalBinaryOffset Header.zero (hdr_one_option_bytes ++ [1])
  = Some (Header.mk 0 false false 0 0 [], Err errInvalidOptionLength).
Proof. repeat split. Qed.

(** C2, amended. For a buffer [H] that [Header.MarshalBinary] returns for a
    header, of total length [L <= 260] (at most 63 words of options), whose
    last option, if any, carries data, and for a payload [P] whose length is a
    multiple of 4 (any payload when the header has no options), decoding
    [H ++ P] with the payload-offset variant succeeds, returns [L] and leaves
    the receiver as decoding [H] alone does. *)
Theorem payload_offset_aligned (h r : Header.t) (H P : list Z) :
  Header.wf h ->
  Header.MarshalBinary h = Ok H ->
  len H <= 260 ->
  last_has_data (Header.Options h) ->
  Header.Options h = [] \/ len P mod 4 = 0 ->
  exists h',
    Header.unmarshalBinaryOffset r (H ++ P) = Some (h', Ok (len H)) /\
    Header.unmarshalBinaryOffset r H = Some (h', Ok (len H)).
Proof.
  intros Hwf HM HL Hlast HP.
  apply header_marshal_wire in HM as (HV & Hmax & Hm & ->).
  set (os := Header.Options h) in *.
  set (n := len (options_wire os)) in *.
  assert (Hlen : len (header_wire h n ++ options_wire os) = 8 + n).
  { rewrite len_app. reflexivity. }
  rewrite Hlen in *.
  assert (H63 : n / 4 <= 63) by (Z.div_mod_to_equations; lia).
  eexists. split.
  - rewrite <- app_assoc. now apply header_unmarshal_wire.
  - rewrite <- (app_nil_r (options_wire os)).
    apply header_unmarshal_wire; try assumption. now right.
Qed.

Lemma UnmarshalBinary_offset (h h' : Header.t) (b : list Z) (e : error) :
  Header.UnmarshalBinary h b = Some (h', Some e) <->
  Header.unmarshalBinaryOffset h b = Some (h', Err e).
Proof.
  unfold Header.UnmarshalBinary.
  destruct (Header.unmarshalBinaryOffset h b) as [[g [off | e']] |];
    split; intros H; try discriminate; injection H as <- <-; reflexivity.
Qed.

Lemma UnmarshalBinary_ok (h h' : Header.t) (b : list Z) :
  Header.UnmarshalBinary h b = Some (h', None) <->
  exists off, Header.unmarshalBinaryOffset h b = Some (h', Ok off).
Proof.
  unfold Header.UnmarshalBinary.
  destruct (Header.unmarshalBinaryOffset h b) as [[g [off | e']] |]; split.
  all: try (intros H; discriminate).
  all: try (intros [off' H]; discriminate).
  - intros H. injection H as <-. eauto.
  - intros [off' H]. injection H as <- _. reflexivity.
Qed.

(** The loop does what [optionsRun] tells: it appends the options of the run
    to the receiver, in order, and returns how the run ends. *)
Lemma optionsLoop_run (fuel : nat) (b : list Z) (ol : Z) :
  forall i h h' res,
    Header.optionsLoop fuel b ol i h = Some (h', res) ->
    exists opts,
      optionsRun b ol i opts res /\
      h' = Header.set_Options h (Header.Options h ++ opts).
Proof.
  induction fuel as [| fuel IH]; intros i h h' res H; cbn [Header.optionsLoop] in H.
  - destruct (i <=? ol) eqn:E; [discriminate |]. injection H as <- <-.
    apply Z.leb_gt in E. exists []. split; [now constructor |].
    now rewrite app_nil_r, set_Options_same.
  - destruct (i <=? ol) eqn:E.
    + apply Z.leb_le in E.
      destruct (Option.UnmarshalBinary Option.zero (slice_from b i))
        as [o [e |]] eqn:EU.
      * injection H as <- <-. exists []. split; [now apply (run_fail b ol i o) |].
        now rewrite app_nil_r, set_Options_same.
      * apply IH in H as (opts & Hrun & ->).
        exists (o :: opts). split; [now apply (run_step b ol i o) |].
        unfold Header.set_Options.
        cbn [Header.Version Header.FlagOAM Header.FlagCritical Header.ProtocolType
             Header.VNI Header.Options].
        now rewrite <- app_assoc.
    + apply Z.leb_gt in E. injection H as <- <-.
      exists []. split; [now constructor |].
      now rewrite app_nil_r, set_Options_same.
Qed.

(** A buffer has one run: the options and the outcome are determined. *)
Lemma optionsRun_functional (b : list Z) (ol i : Z)
  (opts1 opts2 : list Option.t) (res1 res2 : result Z) :
  optionsRun b ol i opts1 res1 ->
  optionsRun b ol i opts2 res2 ->
  opts1 = opts2 /\ res1 = res2.
Proof.
  intros H1. revert opts2 res2.
  induction H1 as [i Hi | i o e Hi HU | i o opts res Hi HU Hrun IH];
    intros opts2 res2 H2.
  - inversion H2 as [j Hj | j o' e' Hj HU' | j o' opts' res' Hj HU' Hrun'];
      subst; try lia. now split.
  - inversion H2 as [j Hj | j o' e' Hj HU' | j o' opts' res' Hj HU' Hrun'];
      subst; try lia; rewrite HU in HU'; [| discriminate].
    injection HU' as _ <-. now split.
  - inversion H2 as [j Hj | j o' e' Hj HU' | j o' opts' res' Hj HU' Hrun'];
      subst; try lia; rewrite HU in HU'; [discriminate |].
    injection HU' as <-. apply IH in Hrun' as [<- <-]. now split.
Qed.

(** The runs of two buffers: the two options of [hdr_all_bytes], and [opt1]
    followed by a short read. *)
Example optionsRun_two_options :
  optionsRun hdr_all_bytes 20 8 [opt1; opt2] (Ok 28).
Proof.
  apply (run_step _ _ 8 opt1); [lia | reflexivity |].
  apply (run_step _ _ 16 opt2); [lia | reflexivity |].
  apply (run_done _ _ 28). lia.
Qed.

Example optionsRun_second_option_short :
  optionsRun buf_second_option_short 16 8 [opt1] (Err ErrUnexpectedEOF).
Proof.
  apply (run_step _ _ 8 opt1); [lia | reflexivity |].
  apply (run_fail _ _ 16 Option.zero); [lia | reflexivity].
Qed.

(** C4, as stated, fails: on eight bytes that advertise one word of options
    and carry none, the call returns a short-read error after it has
    overwritten [Version] in the receiver. *)
Lemma unmarshal_error_modifies_receiver :
  Header.UnmarshalBinary Header.zero buf_short_options
  = Some (Header.mk 1 false false 0 0 [], Some ErrUnexpectedEOF) /\
  Header.unmarshalBinaryOffset Header.zero buf_short_options
  = Some (Header.mk 1 false false 0 0 [], Err ErrUnexpectedEOF) /\
  Header.mk 1 false false 0 0 [] <> Header.zero.
Proof. repeat split. discriminate. Qed.

(** C4, amended. When [Header.UnmarshalBinary] (or the payload-offset
    variant) returns an error, the receiver is unchanged if the buffer has
    fewer than 8 bytes; if the buffer has fewer than [8 + ol] bytes, [Version]
    has been overwritten with [buf[0] >> 6] and nothing else; otherwise an
    option failed to decode, the five scalar fields have been overwritten
    from the first eight bytes and the options decoded before the failing one
    (the options of the run from offset 8, each what [Option.UnmarshalBinary]
    returns on [b[i:]]) have been appended to [Options], in order. *)
Theorem unmarshal_error_receiver (h h' : Header.t) (b : list Z) (e : error) :
  Header.UnmarshalBinary h b = Some (h', Some e) ->
  let ol := Z.land (index b 0) 0x3f * 4 in
  Header.unmarshalBinaryOffset h b = Some (h', Err e) /\
  ((len b < 8 /\ e = ErrUnexpectedEOF /\ h' = h) \/
   (8 <= len b < 8 + ol /\ e = ErrUnexpectedEOF /\
    h' = Header.set_Version h (Z.shiftr (index b 0) 6)) \/
   (8 + ol <= len b /\
    exists opts,
      optionsRun b ol 8 opts (Err e) /\
      h' = Header.mk (Z.shiftr (index b 0) 6)
                     (Z.shiftr (index b 1) 7 =? 1)
                     (Z.shiftr (Z.land (index b 1) 0x40) 6 =? 1)
                     (BigEndian.Uint16 [index b 2; index b 3])
                     (Z.shiftr (BigEndian.Uint32
                                  [index b 4; index b 5; index b 6; index b 7]) 8)
                     (Header.Options h ++ opts))).
Proof.
  intros HU ol. apply UnmarshalBinary_offset in HU. split; [exact HU |].
  destruct (Z.lt_ge_cases (len b) 8) as [Hlt | Hge].
  - rewrite unmarshal_short in HU by assumption. injection HU as <- <-. auto.
  - right.
    destruct (eight_bytes b Hge)
      as (a0 & a1 & a2 & a3 & a4 & a5 & a6 & a7 & rest & ->).
    rewrite unmarshal_bytes8 in HU. cbv zeta in HU.
    rewrite !len_cons. subst ol. index_simpl.
    set (ol := Z.land a0 63 * 4) in *.
    pose proof (len_nonneg rest) as Hr.
    destruct (len rest <? ol) eqn:E1.
    + apply Z.ltb_lt in E1. injection HU as <- <-. left.
      repeat split; try reflexivity; lia.
    + apply Z.ltb_ge in E1.
      destruct (ol =? 0) eqn:E2; [discriminate |].
      apply optionsLoop_run in HU as (opts & Hrun & ->).
      right. split; [lia |]. exists opts. split; [exact Hrun | reflexivity].
Qed.

(** C10. [Header.UnmarshalBinary] appends to the receiver's [Options]: after
    a successful call the list is the old list followed, in order, by the
    options decoded from the buffer (the options of the run from offset 8,
    each what [Option.UnmarshalBinary] returns on [b[i:]]), which are also
    the options the same buffer decodes to in a fresh header. *)
Theorem unmarshal_appends_options (h h' : Header.t) (b : list Z) :
  Header.UnmarshalBinary h b = Some (h', None) ->
  let ol := Z.land (index b 0) 0x3f * 4 in
  exists opts off h0,
    optionsRun b ol 8 opts (Ok off) /\
    Header.unmarshalBinaryOffset h b = Some (h', Ok off) /\
    Header.Options h' = Header.Options h ++ opts /\
    Header.UnmarshalBinary Header.zero b = Some (h0, None) /\
    Header.Options h0 = opts.
Proof.
  intros HU ol. apply UnmarshalBinary_ok in HU as [off HU].
  destruct (Z.lt_ge_cases (len b) 8) as [Hlt | Hge].
  { rewrite unmarshal_short in HU by assumption. discriminate. }
  pose proof HU as HU'.
  destruct (eight_bytes b Hge)
    as (a0 & a1 & a2 & a3 & a4 & a5 & a6 & a7 & rest & ->).
  rewrite unmarshal_bytes8 in HU. cbv zeta in HU.
  assert (HZ := unmarshal_bytes8 Header.zero a0 a1 a2 a3 a4 a5 a6 a7 rest).
  cbv zeta in HZ. subst ol. index_simpl.
  set (ol := Z.land a0 63 * 4) in *.
  pose proof (land_0x3f_range a0) as Hol. fold ol in Hol.
  destruct (len rest <? ol); [discriminate |].
  destruct (ol =? 0) eqn:E2.
  - apply Z.eqb_eq in E2. injection HU as <- <-.
    exists [], 8. eexists. split; [constructor; lia |].
    split; [exact HU' |]. split.
    + unfold fixed_fields. cbn [Header.Options]. now rewrite app_nil_r.
    + split; [apply UnmarshalBinary_ok; eexists; exact HZ | reflexivity].
  - pose proof HU as Hloop.
    apply optionsLoop_run in HU as (opts & Hrun & ->).
    apply optionsLoop_appends in Hloop as (opts' & Heq & Hg).
    assert (opts' = opts) as ->.
    { apply (f_equal Header.Options) in Heq.
      cbn [Header.set_Options Header.Options] in Heq.
      now apply app_inv_head in Heq. }
    rewrite Hg in HZ.
    exists opts, off. eexists. split; [exact Hrun |].
    split; [exact HU' |]. split; [reflexivity |].
    split; [apply UnmarshalBinary_ok; eexists; exact HZ | reflexivity].
Qed.

(** ** Reserved bits *)

Lemma land_lor_reserved (a m k c : Z) :
  Z.land m k = m -> Z.land k c = 0 -> Z.land (Z.lor a m) c = Z.land a c.
Proof.
  intros Hm Hk.
  rewrite Z.land_lor_distr_l, <- Hm, <- Z.land_assoc, Hk, Z.land_0_r.
  apply Z.lor_0_r.
Qed.

Lemma shiftr_lor_reserved (a m k n : Z) :
  Z.land m k = m -> Z.shiftr k n = 0 -> Z.shiftr (Z.lor a m) n = Z.shiftr a n.
Proof.
  intros Hm Hk.
  rewrite Z.shiftr_lor, <- Hm, Z.shiftr_land, Hk, Z.land_0_r.
  apply Z.lor_0_r.
Qed.

Lemma slice_from_app_ge {A : Type} (pre rest : list A) (i : Z) :
  len pre <= i -> slice_from (pre ++ rest) i = slice_from rest (i - len pre).
Proof.
  unfold slice_from, len. intros H.
  rewrite skipn_app, skipn_all2 by lia. cbn [app]. f_equal. lia.
Qed.

(** From offset 8 on, the loop does not read the first eight bytes. *)
Lemma optionsLoop_prefix (fuel : nat) (pre pre' rest : list Z) (ol : Z) :
  len pre = 8 -> len pre' = 8 ->
  forall i h,
    8 <= i ->
    Header.optionsLoop fuel (pre ++ rest) ol i h
    = Header.optionsLoop fuel (pre' ++ rest) ol i h.
Proof.
  intros Hp Hp'. induction fuel as [| fuel IH]; intros i h Hi; [reflexivity |].
  cbn [Header.optionsLoop].
  rewrite !slice_from_app_ge by lia. rewrite Hp, Hp'.
  destruct (i <=? ol); [| reflexivity].
  destruct (Option.UnmarshalBinary Option.zero (slice_from rest (i - 8)))
    as [o [e |]]; [reflexivity |].
  apply IH. change geneve.optionHeaderLen with 4.
  pose proof (len_nonneg (elems (Option.Data o))). lia.
Qed.

(** Setting reserved bits of bytes 1 and 7 changes nothing of what the header
    decoder does. *)
Lemma header_reserved_bits (r : Header.t) (b : list Z) (m1 m7 : Z) :
  Z.land m1 0x3f = m1 -> Z.land m7 0xff = m7 ->
  8 <= len b ->
  Header.unmarshalBinaryOffset r (store_or (store_or b 1 m1) 7 m7)
  = Header.unmarshalBinaryOffset r b.
Proof.
  intros H1 H7 Hb.
  destruct (eight_bytes b Hb)
    as (a0 & a1 & a2 & a3 & a4 & a5 & a6 & a7 & rest & ->).
  stores_simpl. rewrite !unmarshal_bytes8. cbv zeta.
  assert (HF : fixed_fields r a0 (Z.lor a1 m1) a2 a3 a4 a5 a6 (Z.lor a7 m7)
               = fixed_fields r a0 a1 a2 a3 a4 a5 a6 a7).
  { unfold fixed_fields, BigEndian.Uint32. index_simpl.
    rewrite (shiftr_lor_reserved a1 m1 0x3f 7) by (assumption || reflexivity).
    rewrite (land_lor_reserved a1 m1 0x3f 0x40) by (assumption || reflexivity).
    rewrite <- !Z.lor_assoc, (Z.lor_comm m7), !Z.lor_assoc.
    rewrite (shiftr_lor_reserved _ m7 0xff 8) by (assumption || reflexivity).
    reflexivity. }
  rewrite HF.
  destruct (len rest <? _); [reflexivity |].
  destruct (_ =? 0); [reflexivity |].
  apply (optionsLoop_prefix _ [a0; Z.lor a1 m1; a2; a3; a4; a5; a6; Z.lor a7 m7]
                             [a0; a1; a2; a3; a4; a5; a6; a7] rest);
    [reflexivity | reflexivity | lia].
Qed.

(** Setting reserved bits of byte 3 changes nothing of what the option
    decoder does. *)
Lemma option_reserved_bits (r : Option.t) (b : list Z) (m : Z) :
  Z.land m 0xe0 = m ->
  4 <= len b ->
  Option.UnmarshalBinary r (store_or b 3 m) = Option.UnmarshalBinary r b.
Proof.
  intros Hm Hb.
  destruct (four_bytes b Hb) as (a0 & a1 & a2 & a3 & rest & ->).
  stores_simpl. unfold Option.UnmarshalBinary.
  rewrite !len_cons. index_simpl.
  rewrite (land_lor_reserved a3 m 0xe0 0x1f) by (assumption || reflexivity).
  reflexivity.
Qed.

Lemma set_nth_length (l : list Z) (k : nat) (v : Z) :
  length (set_nth l k v) = length l.
Proof.
  revert k. induction l as [| x l IH]; intros [| k]; cbn; auto.
Qed.

Lemma skipn_set_nth_ge (l : list Z) (n k : nat) (v : Z) :
  (n <= k)%nat -> skipn n (set_nth l k v) = set_nth (skipn n l) (k - n) v.
Proof.
  revert n k. induction l as [| x l IH]; intros n k H.
  - destruct n, k; reflexivity.
  - destruct n as [| n]; [now rewrite Nat.sub_0_r |].
    destruct k as [| k]; [lia |]. cbn. apply IH. lia.
Qed.

Lemma skipn_set_nth_lt (l : list Z) (n k : nat) (v : Z) :
  (k < n)%nat -> skipn n (set_nth l k v) = skipn n l.
Proof.
  revert n k. induction l as [| x l IH]; intros n k H.
  - destruct n, k; reflexivity.
  - destruct n as [| n]; [lia |].
    destruct k as [| k]; cbn; [reflexivity |]. apply IH. lia.
Qed.

Lemma firstn_set_nth_ge (l : list Z) (n k : nat) (v : Z) :
  (n <= k)%nat -> firstn n (set_nth l k v) = firstn n l.
Proof.
  revert n k. induction l as [| x l IH]; intros n k H.
  - destruct n, k; reflexivity.
  - destruct n as [| n]; [reflexivity |].
    destruct k as [| k]; [lia |]. cbn. f_equal. apply IH. lia.
Qed.

Lemma nth_skipn_sub (l : list Z) (n k : nat) :
  (n <= k)%nat -> nth (k - n) (skipn n l) 0 = nth k l 0.
Proof.
  intros H. rewrite nth_skipn. f_equal. lia.
Qed.

Lemma len_store_or (b : list Z) (p m : Z) : len (store_or b p m) = len b.
Proof. unfold store_or, store, len. now rewrite set_nth_length. Qed.

Lemma slice_from_store_or_ge (b : list Z) (i p m : Z) :
  0 <= i <= p ->
  slice_from (store_or b p m) i = store_or (slice_from b i) (p - i) m.
Proof.
  intros H. unfold slice_from, store_or, store, index.
  rewrite skipn_set_nth_ge by lia.
  replace (Z.to_nat (p - i)) with (Z.to_nat p - Z.to_nat i)%nat by lia.
  now rewrite nth_skipn_sub by lia.
Qed.

Lemma slice_from_store_or_lt (b : list Z) (i p m : Z) :
  0 <= p < i -> slice_from (store_or b p m) i = slice_from b i.
Proof.
  intros H. unfold slice_from, store_or, store.
  apply skipn_set_nth_lt. lia.
Qed.

(** The option decoder reads the length of its buffer and the first
    [4 + ol] bytes only. *)
Lemma option_unmarshal_store_beyond (r : Option.t) (c : list Z) (p m : Z) :
  4 + Z.land (index c 3) 0x1f * 4 <= p ->
  Option.UnmarshalBinary r (store_or c p m) = Option.UnmarshalBinary r c.
Proof.
  intros Hp.
  pose proof (land_0x1f_range (index c 3)) as Hol.
  destruct (Z.lt_ge_cases (len c) 4) as [Hlt | Hge].
  - unfold Option.UnmarshalBinary. rewrite len_store_or.
    change geneve.optionHeaderLen with 4.
    destruct (len c <? 4) eqn:E; [reflexivity | lia].
  - destruct (four_bytes c Hge) as (a0 & a1 & a2 & a3 & rest & ->).
    revert Hp Hol. index_simpl. intros Hp Hol.
    unfold store_or, store, index.
    replace (Z.to_nat p) with (4 + Z.to_nat (p - 4))%nat by lia.
    cbn [Nat.add set_nth nth].
    set (k := Z.to_nat (p - 4)). set (v := Z.lor (nth k rest 0) m).
    unfold Option.UnmarshalBinary.
    rewrite !len_cons. fold (len (set_nth rest k v)).
    assert (Hl : len (set_nth rest k v) = len rest)
      by (unfold len; now rewrite set_nth_length).
    rewrite Hl. index_simpl.
    change geneve.optionHeaderLen with 4.
    set (ol := Z.land a3 31 * 4) in *.
    unfold slice. change (Z.to_nat 4) with 4%nat. cbn [skipn].
    rewrite firstn_set_nth_ge by (unfold k; lia).
    reflexivity.
Qed.

Lemma optionsLoop_store_before (fuel : nat) (b : list Z) (ol p m : Z) :
  forall i h,
    0 <= p < i ->
    Header.optionsLoop fuel (store_or b p m) ol i h
    = Header.optionsLoop fuel b ol i h.
Proof.
  induction fuel as [| fuel IH]; intros i h Hi; [reflexivity |].
  cbn [Header.optionsLoop]. rewrite slice_from_store_or_lt by assumption.
  destruct (i <=? ol); [| reflexivity].
  destruct (Option.UnmarshalBinary Option.zero (slice_from b i)) as [o [e |]];
    [reflexivity |].
  apply IH. change geneve.optionHeaderLen with 4.
  pose proof (len_nonneg (elems (Option.Data o))). lia.
Qed.

Lemma optionOffsets_ge (fuel : nat) (b : list Z) (ol : Z) :
  forall i j, In j (optionOffsets fuel b ol i) -> i <= j.
Proof.
  induction fuel as [| fuel IH]; intros i j; cbn [optionOffsets].
  - destruct (i <=? ol); intros [].
  - destruct (i <=? ol); [| intros []].
    destruct (Option.UnmarshalBinary Option.zero (slice_from b i)) as [o [e |]];
      [intros [] |].
    intros [<- | H]; [lia |]. apply IH in H.
    change geneve.optionHeaderLen with 4 in H.
    pose proof (len_nonneg (elems (Option.Data o))). lia.
Qed.

(** Setting reserved bits in byte 3 of an option that the loop decodes
    changes nothing of what the loop does. *)
Lemma optionsLoop_option_reserved (fuel : nat) (b : list Z) (ol j m : Z) :
  Z.land m 0xe0 = m ->
  forall i h,
    0 <= i ->
    In j (optionOffsets fuel b ol i) ->
    Header.optionsLoop fuel (store_or b (j + 3) m) ol i h
    = Header.optionsLoop fuel b ol i h.
Proof.
  intros Hm. induction fuel as [| fuel IH]; intros i h Hi Hj; [reflexivity |].
  pose proof (optionOffsets_ge _ _ _ _ _ Hj) as Hij.
  cbn [Header.optionsLoop optionOffsets] in *.
  destruct (i <=? ol); [| reflexivity].
  rewrite slice_from_store_or_ge by lia.
  set (c := slice_from b i) in *.
  pose proof (option_unmarshal_cases Option.zero c) as Hc. cbv zeta in Hc.
  destruct (Option.UnmarshalBinary Option.zero c) as [o [e |]] eqn:E;
    [destruct Hj |].
  destruct Hc as [(_ & Hc) | [(_ & _ & Hc) | [(_ & _ & _ & Hc) | (H4 & _ & Hl & Hc)]]];
    try discriminate.
  assert (Hd : len (elems (Option.Data o)) = Z.land (index c 3) 31 * 4).
  { apply (f_equal fst) in Hc. cbn [fst] in Hc. rewrite Hc.
    cbn [Option.Data elems].
    pose proof (land_0x1f_range (index c 3)). rewrite len_slice; lia. }
  change geneve.optionHeaderLen with 4 in *.
  destruct Hj as [<- | Hj].
  - replace (i + 3 - i) with 3 by lia.
    rewrite option_reserved_bits, E by assumption.
    apply optionsLoop_store_before.
    pose proof (len_nonneg (elems (Option.Data o))). lia.
  - apply optionOffsets_ge in Hj as Hij'.
    rewrite option_unmarshal_store_beyond, E by lia.
    apply IH; [| assumption].
    pose proof (len_nonneg (elems (Option.Data o))). lia.
Qed.

Lemma nth_set_nth_ne (l : list Z) (k n : nat) (v : Z) :
  n <> k -> nth n (set_nth l k v) 0 = nth n l 0.
Proof.
  revert k n. induction l as [| x l IH]; intros k n H.
  - destruct k, n; reflexivity.
  - destruct k as [| k], n as [| n]; cbn; try reflexivity; try lia.
    apply IH. lia.
Qed.

Lemma index_store_or_ne (b : list Z) (p m k : Z) :
  0 <= k -> 0 <= p -> k <> p -> index (store_or b p m) k = index b k.
Proof.
  intros Hk Hp Hne. unfold index, store_or, store.
  apply nth_set_nth_ne. lia.
Qed.

Lemma unmarshal_unfold (r : Header.t) (b : list Z) :
  8 <= len b ->
  let ol := Z.land (index b 0) 0x3f * 4 in
  let h := fixed_fields r (index b 0) (index b 1) (index b 2) (index b 3)
                          (index b 4) (index b 5) (index b 6) (index b 7) in
  Header.unmarshalBinaryOffset r b =
    if len b <? 8 + ol
    then Some (Header.set_Version r (Z.shiftr (index b 0) 6), Err ErrUnexpectedEOF)
    else if ol =? 0 then Some (h, Ok 8)
    else Header.optionsLoop (Z.to_nat ol) b ol 8 h.
Proof.
  intros Hb.
  destruct (eight_bytes b Hb)
    as (a0 & a1 & a2 & a3 & a4 & a5 & a6 & a7 & rest & ->).
  cbv zeta. rewrite unmarshal_bytes8. cbv zeta. index_simpl.
  rewrite !len_cons.
  replace (1 + (1 + (1 + (1 + (1 + (1 + (1 + (1 + len rest))))))) <? 8 + Z.land a0 63 * 4)
    with (len rest <? Z.land a0 63 * 4); [reflexivity |].
  destruct (len rest <? Z.land a0 63 * 4) eqn:E; symmetry;
    [apply Z.ltb_lt | apply Z.ltb_ge]; lia.
Qed.

(** Setting reserved bits in byte 3 of an option that the header decoder
    reads changes nothing of what the header decoder does. *)
Lemma header_option_reserved_bits (r : Header.t) (b : list Z) (j m : Z) :
  Z.land m 0xe0 = m ->
  8 <= len b ->
  In j (headerOptionOffsets b) ->
  Header.unmarshalBinaryOffset r (store_or b (j + 3) m)
  = Header.unmarshalBinaryOffset r b.
Proof.
  intros Hm Hb Hj. unfold headerOptionOffsets in Hj.
  change geneve.headerLen with 8 in Hj.
  pose proof (optionOffsets_ge _ _ _ _ _ Hj) as H8.
  rewrite !unmarshal_unfold by (rewrite ?len_store_or; assumption).
  cbv zeta. rewrite len_store_or.
  rewrite !index_store_or_ne by lia.
  destruct (len b <? _); [reflexivity |].
  destruct (_ =? 0); [reflexivity |].
  apply optionsLoop_option_reserved; [assumption | lia | assumption].
Qed.

(** C9. Reserved bits are ignored: in a buffer that decodes as a header,
    setting any of the low 6 bits of byte 1, any bit of byte 7 (the low 8
    bits of bytes 4-7) or, for an option that the decoder reads at offset
    [j], any of the high 3 bits of byte [j + 3], and in a buffer that decodes
    as an option, setting any of the high 3 bits of byte 3, gives a buffer
    that decodes to the same value (and, for a header, the same offset). *)
Theorem reserved_bits_ignored :
  (forall (r h' : Header.t) (b : list Z) (off m1 m7 : Z),
      Z.land m1 0x3f = m1 -> Z.land m7 0xff = m7 ->
      Header.unmarshalBinaryOffset r b = Some (h', Ok off) ->
      Header.unmarshalBinaryOffset r (store_or (store_or b 1 m1) 7 m7)
      = Some (h', Ok off)) /\
  (forall (r h' : Header.t) (b : list Z) (off j m : Z),
      Z.land m 0xe0 = m ->
      In j (headerOptionOffsets b) ->
      Header.unmarshalBinaryOffset r b = Some (h', Ok off) ->
      Header.unmarshalBinaryOffset r (store_or b (j + 3) m)
      = Some (h', Ok off)) /\
  (forall (r o' : Option.t) (b : list Z) (m : Z),
      Z.land m 0xe0 = m ->
      Option.UnmarshalBinary r b = (o', None) ->
      Option.UnmarshalBinary r (store_or b 3 m) = (o', None)).
Proof.
  assert (Hlen : forall r h' b off,
             Header.unmarshalBinaryOffset r b = Some (h', Ok off) -> 8 <= len b).
  { intros r h' b off H.
    destruct (Z.lt_ge_cases (len b) 8) as [Hlt | Hge]; [| assumption].
    rewrite unmarshal_short in H by assumption. discriminate. }
  split; [| split].
  - intros r h' b off m1 m7 H1 H7 H.
    rewrite header_reserved_bits; eauto.
  - intros r h' b off j m Hm Hj H.
    rewrite header_option_reserved_bits; eauto.
  - intros r o' b m Hm H.
    rewrite option_reserved_bits; try assumption.
    destruct (Z.lt_ge_cases (len b) 4) as [Hlt | Hge]; [| assumption].
    destruct (option_unmarshal_cases r b)
      as [(_ & E) | [(? & _) | [(? & _) | (? & _)]]]; try lia.
    cbv zeta in E. rewrite H in E. discriminate.
Qed.

(** ** The theorems at concrete inputs *)

Lemma option_roundtrip_witness :
  Option.wf opt1 /\
  Option.MarshalBinary opt1 = Ok [0x00; 0x01; 0x82; 0x01; 0; 1; 2; 3] /\
  len [0x00; 0x01; 0x82; 0x01; 0; 1; 2; 3] = 4 + len (elems (Option.Data opt1)) /\
  exists o', Option.UnmarshalBinary Option.zero [0x00; 0x01; 0x82; 0x01; 0; 1; 2; 3]
             = (o', None) /\
    Option.OptionClass o' = Option.OptionClass opt1 /\
    Option.FlagCritical o' = Option.FlagCritical opt1 /\
    Option.Type_ o' = Option.Type_ opt1 /\
    elems (Option.Data o') = elems (Option.Data opt1) /\
    is_nil (Option.Data o') = false.
Proof.
  assert (Hwf : Option.wf opt1) by solve_wf.
  split; [exact Hwf |]. split; [reflexivity |].
  exact (option_roundtrip opt1 Option.zero _ Hwf eq_refl).
Defined.

Lemma option_unmarshal_failure_order_witness :
  is_bytes buf_option_reserved /\
  exists o', Option.UnmarshalBinary Option.zero buf_option_reserved = (o', None) /\
    Option.Type_ o' = 0 /\
    Option.FlagCritical o' = false /\
    Option.OptionClass o' = 0 /\
    Option.Data o' = Bytes [1; 2; 3; 4].
Proof.
  assert (Hb : is_bytes buf_option_reserved) by solve_wf.
  split; [exact Hb |].
  destruct (option_unmarshal_failure_order Option.zero buf_option_reserved Hb)
    as (_ & _ & _ & H & _).
  apply H; vm_compute; congruence.
Defined.

Lemma payload_offset_aligned_witness :
  Header.wf hdr_all /\
  Header.MarshalBinary hdr_all = Ok hdr_all_bytes /\
  len hdr_all_bytes <= 260 /\
  last_has_data (Header.Options hdr_all) /\
  len [1; 2; 3; 4] mod 4 = 0 /\
  exists h',
    Header.unmarshalBinaryOffset Header.zero (hdr_all_bytes ++ [1; 2; 3; 4])
    = Some (h', Ok (len hdr_all_bytes)) /\
    Header.unmarshalBinaryOffset Header.zero hdr_all_bytes
    = Some (h', Ok (len hdr_all_bytes)).
Proof.
  assert (Hwf : Header.wf hdr_all) by solve_wf.
  assert (HL : len hdr_all_bytes <= 260) by (vm_compute; congruence).
  assert (Hd : last_has_data (Header.Options hdr_all)) by reflexivity.
  repeat (split; [assumption || reflexivity |]).
  exact (payload_offset_aligned hdr_all Header.zero hdr_all_bytes [1; 2; 3; 4]
           Hwf eq_refl HL Hd (or_intror eq_refl)).
Defined.

Lemma unmarshal_error_receiver_witness :
  Header.UnmarshalBinary Header.zero buf_second_option_short
  = Some (Header.mk 0 false false 0 0 [opt1], Some ErrUnexpectedEOF) /\
  (let ol := Z.land (index buf_second_option_short 0) 0x3f * 4 in
   Header.unmarshalBinaryOffset Header.zero buf_second_option_short
   = Some (Header.mk 0 false false 0 0 [opt1], Err ErrUnexpectedEOF) /\
   ((len buf_second_option_short < 8 /\ ErrUnexpectedEOF = ErrUnexpectedEOF /\
     Header.mk 0 false false 0 0 [opt1] = Header.zero) \/
    (8 <= len buf_second_option_short < 8 + ol /\
     ErrUnexpectedEOF = ErrUnexpectedEOF /\
     Header.mk 0 false false 0 0 [opt1]
     = Header.set_Version Header.zero (Z.shiftr (index buf_second_option_short 0) 6)) \/
    (8 + ol <= len buf_second_option_short /\
     exists opts,
       optionsRun buf_second_option_short ol 8 opts (Err ErrUnexpectedEOF) /\
       Header.mk 0 false false 0 0 [opt1]
       = Header.mk (Z.shiftr (index buf_second_option_short 0) 6)
           (Z.shiftr (index buf_second_option_short 1) 7 =? 1)
           (Z.shiftr (Z.land (index buf_second_option_short 1) 0x40) 6 =? 1)
           (BigEndian.Uint16 [index buf_second_option_short 2;
                              index buf_second_option_short 3])
           (Z.shiftr (BigEndian.Uint32
                        [index buf_second_option_short 4;
                         index buf_second_option_short 5;
                         index buf_second_option_short 6;
                         index buf_second_option_short 7]) 8)
           (Header.Options Header.zero ++ opts)))).
Proof.
  split; [reflexivity |].
  exact (unmarshal_error_receiver Header.zero _ buf_second_option_short _ eq_refl).
Defined.

Lemma unmarshal_appends_options_witness :
  Header.Options hdr_one_option <> [] /\
  Header.UnmarshalBinary hdr_one_option hdr_all_bytes
  = Some (Header.mk 0 true true 0x6558 0xbbeeff [opt1; opt1; opt2], None) /\
  (let ol := Z.land (index hdr_all_bytes 0) 0x3f * 4 in
   exists opts off h0,
     optionsRun hdr_all_bytes ol 8 opts (Ok off) /\
     Header.unmarshalBinaryOffset hdr_one_option hdr_all_bytes
     = Some (Header.mk 0 true true 0x6558 0xbbeeff [opt1; opt1; opt2], Ok off) /\
     [opt1; opt1; opt2] = Header.Options hdr_one_option ++ opts /\
     Header.UnmarshalBinary Header.zero hdr_all_bytes = Some (h0, None) /\
     Header.Options h0 = opts).
Proof.
  split; [discriminate |]. split; [reflexivity |].
  exact (unmarshal_appends_options hdr_one_option _ hdr_all_bytes eq_refl).
Defined.

Lemma reserved_bits_ignored_witness :
  Header.unmarshalBinaryOffset Header.zero hdr_all_bytes_reserved
  = Some (hdr_all, Ok 28) /\
  In 16 (headerOptionOffsets hdr_all_bytes) /\
  Header.unmarshalBinaryOffset Header.zero (store_or hdr_all_bytes (16 + 3) 0xe0)
  = Some (hdr_all, Ok 28) /\
  Option.UnmarshalBinary Option.zero (store_or [0; 0; 0; 0x01; 1; 2; 3; 4] 3 0xe0)
  = (Option.mk 0 false 0 (Bytes [1; 2; 3; 4]), None).
Proof.
  destruct reserved_bits_ignored as (H1 & H2 & H3).
  assert (Hj : In 16 (headerOptionOffsets hdr_all_bytes))
    by (vm_compute; auto).
  split; [| split; [exact Hj | split]].
  - exact (H1 Header.zero hdr_all hdr_all_bytes 28 0x3f 0xff eq_refl eq_refl eq_refl).
  - exact (H2 Header.zero hdr_all hdr_all_bytes 28 16 0xe0 eq_refl Hj eq_refl).
  - exact (H3 Option.zero _ [0; 0; 0; 0x01; 1; 2; 3; 4] 0xe0 eq_refl eq_refl).
Defined.

(** An option without data decodes to an empty, non-nil [Data]. *)
Example option_roundtrip_empty_data :
  Option.MarshalBinary Option.zero = Ok [0; 0; 0; 0] /\
  Option.UnmarshalBinary Option.zero [0; 0; 0; 0]
  = (Option.mk 0 false 0 (Bytes []), None).
Proof. split; reflexivity. Qed.

(** ** The round trip of a header, where the code achieves it *)

Lemma decoded_same (os : list Option.t) :
  Forall2 Option.same (map Option.decoded os) os.
Proof.
  induction os as [| o os IH]; constructor; [| assumption].
  repeat split.
Qed.

(** A header with at most 63 words of options whose last option, if any,
    carries data is decoded back from its encoding, up to the nil-ness of the
    options' [Data]. *)
Lemma header_roundtrip_restricted (h : Header.t) (H : list Z) :
  Header.wf h ->
  Header.MarshalBinary h = Ok H ->
  len H <= 260 ->
  last_has_data (Header.Options h) ->
  exists h',
    Header.UnmarshalBinary Header.zero H = Some (h', None) /\
    Header.same h' h.
Proof.
  intros Hwf HM HL Hlast.
  apply header_marshal_wire in HM as (HV & Hmax & Hm & ->).
  set (os := Header.Options h) in *.
  set (n := len (options_wire os)) in *.
  assert (Hlen : len (header_wire h n ++ options_wire os) = 8 + n)
    by (rewrite len_app; reflexivity).
  rewrite Hlen in HL.
  assert (H63 : n / 4 <= 63) by (Z.div_mod_to_equations; lia).
  pose proof (header_unmarshal_wire h Header.zero [] Hwf HV Hmax Hm Hlast H63
                (or_intror eq_refl)) as HU.
  fold os n in HU. rewrite app_nil_r in HU.
  eexists. split.
  - apply UnmarshalBinary_ok. eexists. exact HU.
  - unfold Header.same. cbn [Header.Version Header.FlagOAM Header.FlagCritical
      Header.ProtocolType Header.VNI Header.Options Header.zero app].
    repeat split; try (symmetry; assumption). apply decoded_same.
Qed.

(** * Further properties of the codec *)

(** ** Header.MarshalBinary: errors and layout *)

Lemma marshalOptions_err (pre post : list Option.t) (o : Option.t) (e : error) :
  forall acc,
    Forall marshals pre ->
    Option.MarshalBinary o = Err e ->
    Header.marshalOptions (pre ++ o :: post) acc = Err e.
Proof.
  induction pre as [| p pre IH]; intros acc Hpre Ho; cbn [app Header.marshalOptions].
  - now rewrite Ho.
  - inversion Hpre as [| ? ? [pb Hp] Hpre']; subst. rewrite Hp. now apply IH.
Qed.

Lemma header_marshal_checks (h : Header.t) :
  Header.MarshalBinary h =
    if negb (Header.Version h =? 0) then Err errInvalidVersion
    else if negb (Header.VNI h <=? geneve.MaxVNI) then Err errInvalidVNI
    else match Header.marshalOptions (Header.Options h) [] with
         | Err e => Err e
         | Ok obs => Ok (header_wire h (len obs) ++ obs)
         end.
Proof.
  unfold Header.MarshalBinary, VNI_Valid. change geneve.Version with 0.
  destruct (negb (Header.Version h =? 0)); [reflexivity |].
  destruct (negb (Header.VNI h <=? geneve.MaxVNI)); [reflexivity |].
  destruct (Header.marshalOptions (Header.Options h) []) as [obs | e];
    [| reflexivity].
  do 2 f_equal. change (make geneve.headerLen) with [0; 0; 0; 0; 0; 0; 0; 0].
  unfold header_wire.
  destruct (Header.FlagOAM h), (Header.FlagCritical h); stores_simpl; reflexivity.
Qed.

(** X1. [Header.MarshalBinary] checks, in this order, the version, the VNI
    and the options in list order: the error of the first option that does
    not marshal is returned unchanged, and the call succeeds exactly when the
    version is 0, the VNI is valid and every option marshals. *)
Theorem header_marshal_failure_order (h : Header.t) :
  let r := Header.MarshalBinary h in
  (Header.Version h <> 0 -> r = Err errInvalidVersion) /\
  (Header.Version h = 0 -> Header.VNI h > geneve.MaxVNI -> r = Err errInvalidVNI) /\
  (Header.Version h = 0 -> Header.VNI h <= geneve.MaxVNI ->
   forall pre o post e,
     Header.Options h = pre ++ o :: post ->
     Forall marshals pre ->
     Option.MarshalBinary o = Err e ->
     r = Err e) /\
  ((exists b, r = Ok b) <->
   Header.Version h = 0 /\ Header.VNI h <= geneve.MaxVNI /\
   Forall marshals (Header.Options h)).
Proof.
  intros r. subst r. rewrite header_marshal_checks.
  destruct (Header.Version h =? 0) eqn:EV; cbn [negb].
  2:{ apply Z.eqb_neq in EV. repeat split; intros; absurd_case. }
  apply Z.eqb_eq in EV.
  destruct (Header.VNI h <=? geneve.MaxVNI) eqn:EN; cbn [negb].
  2:{ apply Z.leb_gt in EN. repeat split; intros; absurd_case. }
  apply Z.leb_le in EN.
  split; [intros; lia |]. split; [intros; lia |]. split.
  - intros _ _ pre o post e Hos Hpre Ho.
    rewrite Hos, (marshalOptions_err pre post o e) by assumption. reflexivity.
  - split.
    + intros [b Hb].
      destruct (Header.marshalOptions (Header.Options h) []) as [obs |] eqn:E;
        [| discriminate].
      apply marshalOptions_inv in E as [HF _]. auto.
    + intros (_ & _ & HF). rewrite marshalOptions_ok by assumption. eauto.
Qed.

Lemma header_wire_len (h : Header.t) (n : Z) : len (header_wire h n) = 8.
Proof. reflexivity. Qed.

Lemma marshals_wire (o : Option.t) :
  marshals o -> Option.MarshalBinary o = Ok (option_wire o).
Proof.
  intros [b E]. pose proof (option_marshal_ok_inv o b E) as (_ & _ & _ & Hb).
  now rewrite E, Hb.
Qed.

(** X2. The bytes [Header.MarshalBinary] returns are eight bytes followed by
    the encodings of the options, each as [Option.MarshalBinary] gives it, in
    list order; the total length is 8 plus the lengths of these encodings. *)
Theorem header_marshal_layout (h : Header.t) (b : list Z) :
  Header.MarshalBinary h = Ok b ->
  exists obs,
    Forall2 (fun o ob => Option.MarshalBinary o = Ok ob) (Header.Options h) obs /\
    slice_from b 8 = concat obs /\
    len b = 8 + len (concat obs).
Proof.
  intros HM. apply header_marshal_wire in HM as (_ & _ & Hm & ->).
  exists (map option_wire (Header.Options h)). split; [| split].
  - induction Hm as [| o os Ho _ IH]; constructor; [| exact IH].
    now apply marshals_wire.
  - rewrite <- (header_wire_len h (len (options_wire (Header.Options h)))).
    apply slice_from_app.
  - rewrite len_app. reflexivity.
Qed.

Lemma vni_word (v : Z) :
  0 <= v <= geneve.MaxVNI ->
  to_uint32 (Z.shiftl (to_uint32 v) 8) = v * 256.
Proof.
  change geneve.MaxVNI with 16777215. intros Hv. unfold to_uint32.
  change (2 ^ 32) with 4294967296.
  rewrite (Z.mod_small v) by lia.
  rewrite Z.shiftl_mul_pow2 by lia. change (2 ^ 8) with 256.
  apply Z.mod_small. lia.
Qed.

(** X3. The fixed header that [Header.MarshalBinary] writes: byte 0 is the
    number of option words, truncated to a byte (the version bits are 0);
    byte 1 carries the two flags and no reserved bit; bytes 2-3 are
    [ProtocolType] and bytes 4-6 the VNI, big-endian; byte 7 is 0. *)
Theorem header_marshal_fixed_bytes (h : Header.t) (b : list Z) :
  Header.wf h ->
  Header.MarshalBinary h = Ok b ->
  index b 0 = ((len b - 8) / 4) mod 256 /\
  index b 1 = (if Header.FlagOAM h then 128 else 0)
              + (if Header.FlagCritical h then 64 else 0) /\
  index b 2 = Header.ProtocolType h / 256 /\
  index b 3 = Header.ProtocolType h mod 256 /\
  index b 4 = Header.VNI h / 65536 /\
  index b 5 = (Header.VNI h / 256) mod 256 /\
  index b 6 = Header.VNI h mod 256 /\
  index b 7 = 0.
Proof.
  intros (_ & Hp & Hv & _) HM.
  apply header_marshal_wire in HM as (HV & Hmax & _ & ->).
  set (obs := options_wire (Header.Options h)).
  rewrite len_app, header_wire_len.
  replace (8 + len obs - 8) with (len obs) by lia.
  pose proof (len_nonneg obs) as Hn.
  unfold header_wire. cbn [app]. index_simpl.
  rewrite HV, vni_word by (unfold is_uint32 in Hv; lia).
  change (to_uint8 (Z.shiftl 0 6)) with 0. rewrite Z.lor_0_l.
  rewrite quot4 by assumption.
  assert (Hp16 : to_uint16 (Header.ProtocolType h) = Header.ProtocolType h)
    by (apply Z.mod_small; exact Hp).
  rewrite Hp16. unfold to_uint8. rewrite !shiftr_div by lia.
  unfold is_uint16 in Hp. unfold is_uint32 in Hv.
  change geneve.MaxVNI with 16777215 in Hmax.
  change (2 ^ 8) with 256 in *. change (2 ^ 16) with 65536 in *.
  change (2 ^ 24) with 16777216 in *.
  repeat split.
  - destruct (Header.FlagOAM h), (Header.FlagCritical h); reflexivity.
  - Z.div_mod_to_equations. lia.
  - Z.div_mod_to_equations. lia.
  - Z.div_mod_to_equations. lia.
  - Z.div_mod_to_equations. lia.
  - Z.div_mod_to_equations. lia.
Qed.

(** X4. The bytes [Option.MarshalBinary] returns: bytes 0-1 are
    [OptionClass], big-endian; byte 2 is [0x80] for a critical option plus
    [Type]; byte 3 is the number of data words, at most 31, so its three
    reserved bits are 0; the data follows unchanged. *)
Theorem option_marshal_layout (o : Option.t) (b : list Z) :
  Option.wf o ->
  Option.MarshalBinary o = Ok b ->
  index b 0 = Option.OptionClass o / 256 /\
  index b 1 = Option.OptionClass o mod 256 /\
  index b 2 = (if Option.FlagCritical o then 128 else 0) + Option.Type_ o /\
  index b 3 = len (elems (Option.Data o)) / 4 /\
  Z.land (index b 3) 0xe0 = 0 /\
  slice_from b 4 = elems (Option.Data o).
Proof.
  intros (Hc & Ht & _) HM.
  apply option_marshal_ok_inv in HM as (H4 & Hty & Hld & ->). cbv zeta in *.
  set (data := elems (Option.Data o)) in *.
  pose proof (len_nonneg data) as Hn.
  unfold option_wire. fold data. cbn [app]. index_simpl.
  rewrite quot4 by assumption.
  unfold is_uint16 in Hc. unfold is_uint8 in Ht.
  assert (Hq : to_uint8 (len data / 4) = len data / 4).
  { apply Z.mod_small. change (2 ^ 8) with 256. Z.div_mod_to_equations. lia. }
  rewrite Hq. unfold to_uint8. rewrite shiftr_div by lia.
  change (2 ^ 8) with 256 in *. change (2 ^ 16) with 65536 in *.
  repeat split.
  - Z.div_mod_to_equations. lia.
  - destruct (Option.FlagCritical o).
    + rewrite Z.lor_comm, lor_shiftl_low by (change (2 ^ 7) with 128; lia).
      change (2 ^ 7) with 128. lia.
    + now rewrite Z.lor_0_l.
  - change 0xe0 with (Z.shiftl 7 5). rewrite Z.land_comm.
    apply land_shiftl_low; [lia |]. change (2 ^ 5) with 32.
    Z.div_mod_to_equations. lia.
Qed.

(** ** Header.unmarshalBinaryOffset: errors and the returned offset *)

Lemma len_slice_from {A : Type} (b : list A) (i : Z) :
  0 <= i <= len b -> len (slice_from b i) = len b - i.
Proof. unfold slice_from, len. intros H. rewrite length_skipn. lia. Qed.

(** What one successful call of the option decoder consumes. *)
Lemma option_unmarshal_ok_len (r o : Option.t) (c : list Z) :
  Option.UnmarshalBinary r c = (o, None) ->
  let n := len (elems (Option.Data o)) in
  4 + n <= len c /\ n mod 4 = 0 /\ 0 <= n <= 124 /\ len c mod 4 = 0 /\
  n = Z.land (index c 3) 0x1f * 4.
Proof.
  intros E n. subst n.
  pose proof (land_0x1f_range (index c 3)) as Hr.
  destruct (option_unmarshal_cases r c)
    as [(_ & H) | [(_ & _ & H) | [(_ & _ & _ & H) | (H4 & Hm & Hl & H)]]];
    cbv zeta in H; rewrite E in H; try discriminate.
  apply (f_equal fst) in H. cbn [fst] in H. rewrite H.
  cbn [Option.Data elems]. rewrite len_slice by lia.
  replace (4 + Z.land (index c 3) 31 * 4 - 4) with (Z.land (index c 3) 31 * 4) by lia.
  repeat split; try lia. Z.div_mod_to_equations. lia.
Qed.

Lemma option_unmarshal_err_kinds (r o : Option.t) (c : list Z) (e : error) :
  Option.UnmarshalBinary r c = (o, Some e) ->
  e = ErrUnexpectedEOF \/ (e = errInvalidOptionLength /\ 4 <= len c /\ len c mod 4 <> 0).
Proof.
  intros E.
  destruct (option_unmarshal_cases r c)
    as [(_ & H) | [(H4 & Hm & H) | [(_ & _ & _ & H) | (_ & _ & _ & H)]]];
    cbv zeta in H; rewrite E in H; try discriminate.
  - injection H as _ ->. now left.
  - injection H as _ ->. right. auto.
  - injection H as _ ->. now left.
Qed.

Section LoopBounds.

Variables (b : list Z) (ol : Z).

(** Along the loop [i] stays a multiple of 4 inside the buffer; the loop
    ends with an offset beyond [ol], or with one of two errors. *)
Lemma optionsLoop_bounds (fuel : nat) :
  forall i h h' res,
    0 <= i <= len b -> i mod 4 = 0 ->
    Header.optionsLoop fuel b ol i h = Some (h', res) ->
    match res with
    | Ok off => i <= off <= len b /\ off mod 4 = 0 /\ ol < off
    | Err e => e = ErrUnexpectedEOF \/
               (e = errInvalidOptionLength /\ len b mod 4 <> 0)
    end.
Proof.
  induction fuel as [| fuel IH]; intros i h h' res Hi H4 H;
    cbn [Header.optionsLoop] in H.
  - destruct (i <=? ol) eqn:E; [discriminate |]. injection H as _ <-.
    apply Z.leb_gt in E. repeat split; lia.
  - destruct (i <=? ol) eqn:E.
    2:{ injection H as _ <-. apply Z.leb_gt in E. repeat split; lia. }
    destruct (Option.UnmarshalBinary Option.zero (slice_from b i))
      as [o [e |]] eqn:EU.
    + injection H as _ <-.
      apply option_unmarshal_err_kinds in EU as [-> | (-> & _ & Hm)]; [now left |].
      right. split; [reflexivity |]. rewrite len_slice_from in Hm by assumption.
      Z.div_mod_to_equations. lia.
    + apply option_unmarshal_ok_len in EU as (Hl & Hm & Hr & _). cbv zeta in *.
      rewrite len_slice_from in Hl by assumption.
      change geneve.optionHeaderLen with 4 in H.
      apply IH in H.
      * destruct res as [off | e]; [| exact H]. repeat split; lia.
      * lia.
      * Z.div_mod_to_equations. lia.
Qed.

End LoopBounds.

(** X5. [unmarshalBinaryOffset] returns no other error than a short read and
    [errInvalidOptionLength]; the latter exactly when the buffer holds the
    advertised option vector, this vector has at least two words and the
    length of the whole buffer is not a multiple of 4. *)
Theorem header_unmarshal_error_kinds (r : Header.t) (b : list Z) :
  let ol := Z.land (index b 0) 0x3f * 4 in
  (forall h' e,
      Header.unmarshalBinaryOffset r b = Some (h', Err e) ->
      e = ErrUnexpectedEOF \/ e = errInvalidOptionLength) /\
  ((exists h', Header.unmarshalBinaryOffset r b
               = Some (h', Err errInvalidOptionLength)) <->
   8 <= ol /\ 8 + ol <= len b /\ len b mod 4 <> 0).
Proof.
  intros ol.
  destruct (Z.lt_ge_cases (len b) 8) as [Hlt | Hge].
  { rewrite unmarshal_short by assumption. split.
    - intros h' e [= _ <-]. now left.
    - split; [intros [h' H]; discriminate | intros (_ & H & _)].
      pose proof (land_0x3f_range (index b 0)). fold ol in H0. lia. }
  pose proof (land_0x3f_range (index b 0)) as Hol. fold ol in Hol.
  rewrite unmarshal_unfold by assumption. cbv zeta. fold ol.
  destruct (len b <? 8 + ol) eqn:E1.
  { apply Z.ltb_lt in E1. split.
    - intros h' e [= _ <-]. now left.
    - split; [intros [h' H]; discriminate | intros; lia]. }
  apply Z.ltb_ge in E1.
  destruct (ol =? 0) eqn:E2.
  { apply Z.eqb_eq in E2. split.
    - intros h' e H. discriminate.
    - split; [intros [h' H]; discriminate | intros; lia]. }
  apply Z.eqb_neq in E2.
  set (h0 := fixed_fields r _ _ _ _ _ _ _ _).
  split.
  - intros h' e H. apply optionsLoop_bounds in H; [| lia | reflexivity].
    destruct H as [-> | [-> _]]; auto.
  - split.
    + intros [h' H]. pose proof H as H'.
      apply optionsLoop_bounds in H'; [| lia | reflexivity].
      destruct H' as [H' | [_ Hm]]; [discriminate |].
      repeat split; try assumption.
      destruct (Z.to_nat ol) as [| fuel]; cbn [Header.optionsLoop] in H;
        destruct (8 <=? ol) eqn:E3; try discriminate; apply Z.leb_le in E3; lia.
    + intros (H8 & _ & Hm).
      destruct (Z.to_nat ol) as [| fuel] eqn:Ef; [lia |].
      cbn [Header.optionsLoop].
      destruct (8 <=? ol) eqn:E3; [| apply Z.leb_gt in E3; lia].
      destruct (option_unmarshal_cases Option.zero (slice_from b 8))
        as [(H & _) | [(_ & _ & H) | [(_ & H & _) | (_ & H & _)]]];
        rewrite ?len_slice_from in H by lia.
      * lia.
      * cbv zeta in H. rewrite H. eauto.
      * exfalso. Z.div_mod_to_equations. lia.
      * exfalso. Z.div_mod_to_equations. lia.
Qed.

(** X6. The offset [unmarshalBinaryOffset] returns lies inside the buffer
    (so [b[off:]] is a valid payload slice), is at least 8 and a multiple of
    4; with no advertised options it is 8 and [Options] is left as it was,
    whatever follows the header; otherwise it is beyond [ol]. *)
Theorem header_unmarshal_offset_bounds (r h' : Header.t) (b : list Z) (off : Z) :
  Header.unmarshalBinaryOffset r b = Some (h', Ok off) ->
  let ol := Z.land (index b 0) 0x3f * 4 in
  8 <= off <= len b /\ off mod 4 = 0 /\
  (ol = 0 -> off = 8 /\ Header.Options h' = Header.Options r) /\
  (ol <> 0 -> ol < off).
Proof.
  intros H ol.
  destruct (Z.lt_ge_cases (len b) 8) as [Hlt | Hge].
  { rewrite unmarshal_short in H by assumption. discriminate. }
  pose proof (land_0x3f_range (index b 0)) as Hol. fold ol in Hol.
  rewrite unmarshal_unfold in H by assumption. cbv zeta in H. fold ol in H.
  destruct (len b <? 8 + ol) eqn:E1; [discriminate |].
  apply Z.ltb_ge in E1.
  destruct (ol =? 0) eqn:E2.
  - apply Z.eqb_eq in E2. injection H as <- <-.
    repeat split; intros; try reflexivity; lia.
  - apply Z.eqb_neq in E2.
    apply optionsLoop_bounds in H; [| lia | reflexivity].
    repeat split; intros; lia.
Qed.

(** ** Decoded fields *)

Lemma is_bytes_index (b : list Z) (k : Z) : is_bytes b -> is_uint8 (index b k).
Proof.
  unfold is_bytes, index. intros Hb. revert b Hb.
  induction (Z.to_nat k) as [| n IH]; intros b Hb.
  - destruct Hb; [unfold is_uint8; cbn; lia | assumption].
  - destruct Hb as [| x l Hx Hl]; [unfold is_uint8; cbn; lia |]. now apply IH.
Qed.

Lemma is_bytes_skipn (b : list Z) (n : nat) : is_bytes b -> is_bytes (skipn n b).
Proof.
  unfold is_bytes. revert b. induction n as [| n IH]; intros b Hb; [assumption |].
  destruct Hb; [constructor | cbn; now apply IH].
Qed.

Lemma is_bytes_firstn (b : list Z) (n : nat) : is_bytes b -> is_bytes (firstn n b).
Proof.
  unfold is_bytes. revert b. induction n as [| n IH]; intros b Hb; [constructor |].
  destruct Hb; [constructor | cbn; constructor; [assumption | now apply IH]].
Qed.

Lemma bit6_of_byte (x : Z) :
  is_uint8 x -> (Z.shiftr (Z.land x 0x40) 6 =? 1) = Z.testbit x 6.
Proof.
  unfold is_uint8. change (2 ^ 8) with 256. intros Hx.
  rewrite Z.shiftr_land, Z.testbit_odd, shiftr_div by lia.
  change (Z.shiftr 64 6) with 1. change (2 ^ 6) with 64.
  assert (H : x / 64 = 0 \/ x / 64 = 1 \/ x / 64 = 2 \/ x / 64 = 3)
    by (Z.div_mod_to_equations; lia).
  destruct H as [-> | [-> | [-> | ->]]]; reflexivity.
Qed.

Lemma uint16_of_bytes (a0 a1 : Z) :
  is_uint8 a1 -> BigEndian.Uint16 [a0; a1] = a0 * 256 + a1.
Proof.
  unfold is_uint8, BigEndian.Uint16. intros H. index_simpl.
  now rewrite lor_shiftl_low by lia.
Qed.

Lemma vni_of_bytes (a4 a5 a6 a7 : Z) :
  is_uint8 a4 -> is_uint8 a5 -> is_uint8 a6 -> is_uint8 a7 ->
  Z.shiftr (BigEndian.Uint32 [a4; a5; a6; a7]) 8 = a4 * 65536 + a5 * 256 + a6.
Proof.
  unfold is_uint8, BigEndian.Uint32. change (2 ^ 8) with 256.
  intros H4 H5 H6 H7. index_simpl.
  rewrite (lor_shiftl_low a6 a7 8) by (change (2 ^ 8) with 256; lia).
  rewrite (lor_shiftl_low a5 _ 16)
    by (change (2 ^ 16) with 65536; change (2 ^ 8) with 256; lia).
  rewrite (lor_shiftl_low a4 _ 24)
    by (change (2 ^ 24) with 16777216; change (2 ^ 16) with 65536;
        change (2 ^ 8) with 256; lia).
  rewrite shiftr_div by lia.
  change (2 ^ 8) with 256. change (2 ^ 16) with 65536.
  change (2 ^ 24) with 16777216.
  Z.div_mod_to_equations. lia.
Qed.

Lemma unmarshal_ok_shape (r h' : Header.t) (b : list Z) (off : Z) :
  Header.unmarshalBinaryOffset r b = Some (h', Ok off) ->
  8 <= len b /\
  exists opts,
    h' = Header.set_Options
           (fixed_fields r (index b 0) (index b 1) (index b 2) (index b 3)
                           (index b 4) (index b 5) (index b 6) (index b 7))
           (Header.Options r ++ opts) /\
    forall g, exists g',
      Header.unmarshalBinaryOffset g b = Some (g', Ok off) /\
      Header.Options g' = Header.Options g ++ opts.
Proof.
  intros H.
  destruct (Z.lt_ge_cases (len b) 8) as [Hlt | Hge].
  { rewrite unmarshal_short in H by assumption. discriminate. }
  split; [assumption |].
  rewrite unmarshal_unfold in H by assumption. cbv zeta in H.
  assert (HU := fun g => unmarshal_unfold g b Hge). cbv zeta in HU.
  destruct (len b <? _); [discriminate |].
  destruct (_ =? 0).
  - injection H as <- <-. exists []. split.
    + rewrite app_nil_r. reflexivity.
    + intros g. eexists. split; [apply HU |].
      unfold fixed_fields. cbn [Header.Options]. now rewrite app_nil_r.
  - apply optionsLoop_appends in H as (opts & -> & Hg).
    exists opts. split; [reflexivity |].
    intros g. eexists. split; [rewrite HU; apply Hg |]. reflexivity.
Qed.

Lemma fixed_fields_arith (r : Header.t) (a0 a1 a2 a3 a4 a5 a6 a7 : Z) :
  is_uint8 a0 -> is_uint8 a1 -> is_uint8 a3 ->
  is_uint8 a4 -> is_uint8 a5 -> is_uint8 a6 -> is_uint8 a7 ->
  fixed_fields r a0 a1 a2 a3 a4 a5 a6 a7
  = Header.mk (a0 / 64) (Z.testbit a1 7) (Z.testbit a1 6)
              (a2 * 256 + a3) (a4 * 65536 + a5 * 256 + a6) (Header.Options r).
Proof.
  intros H0 H1 H3 H4 H5 H6 H7. unfold fixed_fields.
  rewrite bit7_of_byte, bit6_of_byte, uint16_of_bytes, vni_of_bytes by assumption.
  now rewrite shiftr_div by lia.
Qed.

(** X7. The scalar fields after a successful decode of a buffer of bytes:
    [Version] is the top two bits of byte 0, the flags are bits 7 and 6 of
    byte 1, [ProtocolType] is bytes 2-3 and [VNI] bytes 4-6, big-endian; byte 7
    is not read, and the decoded VNI is always valid. *)
Theorem header_unmarshal_fields (r h' : Header.t) (b : list Z) (off : Z) :
  is_bytes b ->
  Header.unmarshalBinaryOffset r b = Some (h', Ok off) ->
  Header.Version h' = index b 0 / 64 /\
  0 <= Header.Version h' <= 3 /\
  Header.FlagOAM h' = Z.testbit (index b 1) 7 /\
  Header.FlagCritical h' = Z.testbit (index b 1) 6 /\
  Header.ProtocolType h' = index b 2 * 256 + index b 3 /\
  Header.VNI h' = index b 4 * 65536 + index b 5 * 256 + index b 6 /\
  VNI_Valid (Header.VNI h') = true.
Proof.
  intros Hb H. apply unmarshal_ok_shape in H as (_ & opts & -> & _).
  rewrite fixed_fields_arith by (apply is_bytes_index; assumption).
  cbn [Header.set_Options Header.Version Header.FlagOAM Header.FlagCritical
       Header.ProtocolType Header.VNI].
  pose proof (is_bytes_index b 0 Hb) as H0.
  pose proof (is_bytes_index b 4 Hb) as H4.
  pose proof (is_bytes_index b 5 Hb) as H5.
  pose proof (is_bytes_index b 6 Hb) as H6.
  unfold is_uint8 in *. change (2 ^ 8) with 256 in *.
  repeat split; try (Z.div_mod_to_equations; lia).
  unfold VNI_Valid. change geneve.MaxVNI with 16777215. apply Z.leb_le. lia.
Qed.

(** ** Decoding, then encoding *)

Lemma critical_type_recombine (x : Z) :
  is_uint8 x ->
  Z.lor (if Z.shiftr x 7 =? 1 then Z.shiftl 1 7 else 0) (Z.land x 0x7f) = x.
Proof.
  unfold is_uint8. change (2 ^ 8) with 256. intros Hx.
  change 0x7f with (2 ^ 7 - 1). rewrite land_mask, shiftr_div by lia.
  change (2 ^ 7) with 128.
  assert (H : x / 128 = 0 \/ x / 128 = 1) by (Z.div_mod_to_equations; lia).
  destruct H as [H | H]; rewrite H; cbn [Z.eqb Pos.eqb].
  - rewrite Z.lor_0_l. Z.div_mod_to_equations. lia.
  - rewrite Z.lor_comm, lor_shiftl_low
      by (change (2 ^ 7) with 128; Z.div_mod_to_equations; lia).
    change (2 ^ 7) with 128. Z.div_mod_to_equations. lia.
Qed.

(** An option decoded from bytes has fields of its Go types and marshals to
    the bytes that were consumed, the reserved bits of byte 3 cleared. *)
Lemma option_unmarshal_remarshal (r o : Option.t) (b : list Z) :
  is_bytes b ->
  Option.UnmarshalBinary r b = (o, None) ->
  let ol := Z.land (index b 3) 0x1f * 4 in
  Option.wf o /\
  Option.MarshalBinary o
  = Ok (store (slice b 0 (4 + ol)) 3 (Z.land (index b 3) 0x1f)).
Proof.
  intros Hb E ol.
  pose proof (option_unmarshal_ok_len r o b E) as (Hl & Hm & Hr & _ & Hn).
  cbv zeta in *. fold ol in Hn.
  destruct (option_unmarshal_cases r b)
    as [(_ & H) | [(_ & _ & H) | [(_ & _ & _ & H) | (H4 & _ & _ & H)]]];
    cbv zeta in H; rewrite E in H; try discriminate.
  apply (f_equal fst) in H. cbn [fst] in H. fold ol in H.
  destruct (four_bytes b H4) as (a0 & a1 & a2 & a3 & rest & ->).
  pose proof (is_bytes_index _ 0 Hb) as Hx0.
  pose proof (is_bytes_index _ 1 Hb) as Hx1.
  pose proof (is_bytes_index _ 2 Hb) as Hx2.
  pose proof (is_bytes_skipn _ 4 Hb) as Hb4. cbn [skipn] in Hb4.
  revert H Hn Hx0 Hx1 Hx2. index_simpl. intros H Hn Hx0 Hx1 Hx2.
  assert (Hol : 0 <= ol <= 124) by (unfold ol; index_simpl; apply land_0x1f_range).
  revert H Hn. unfold slice.
  change (Z.to_nat 0) with 0%nat. change (Z.to_nat (2 - 0)) with 2%nat.
  change (Z.to_nat 4) with 4%nat. cbn [skipn firstn].
  replace (Z.to_nat (4 + ol - 4)) with (Z.to_nat ol) by lia.
  replace (Z.to_nat (4 + ol - 0)) with (4 + Z.to_nat ol)%nat by lia.
  cbn [Nat.add firstn]. rewrite uint16_of_bytes by assumption.
  intros -> Hn. cbn [Option.Data elems] in *.
  set (data := firstn (Z.to_nat ol) rest) in *.
  assert (Hty : 0 <= Z.land a2 127 <= 127).
  { change 127 with (2 ^ 7 - 1) at 1 2. rewrite land_mask by lia.
    change (2 ^ 7) with 128. Z.div_mod_to_equations. lia. }
  unfold is_uint8 in Hx0, Hx1. change (2 ^ 8) with 256 in *.
  split.
  - unfold Option.wf, is_uint16, is_uint8. cbn [Option.OptionClass Option.Type_
      Option.Data elems]. change (2 ^ 16) with 65536. change (2 ^ 8) with 256.
    repeat split; try lia. now apply is_bytes_firstn.
  - destruct (option_marshal_cases
                (Option.mk (a0 * 256 + a1) (Z.shiftr a2 7 =? 1) (Z.land a2 127)
                           (Bytes data)))
      as [(H & _) | [(_ & H & _) | [(_ & _ & H & _) | (_ & _ & _ & H)]]];
      cbv zeta in H; cbn [Option.Data Option.Type_ elems] in H.
    + exfalso. apply H. rewrite Hn. Z.div_mod_to_equations. lia.
    + lia.
    + exfalso. rewrite Hn in H. Z.div_mod_to_equations. lia.
    + rewrite H. f_equal. unfold option_wire, store.
      cbn [Option.OptionClass Option.FlagCritical Option.Type_ Option.Data elems].
      change (Z.to_nat 3) with 3%nat. cbn [set_nth app].
      rewrite critical_type_recombine by assumption.
      rewrite quot4, Hn by lia.
      unfold to_uint8. rewrite shiftr_div by lia. change (2 ^ 8) with 256.
      pose proof (land_0x1f_range a3) as H31.
      f_equal; [Z.div_mod_to_equations; lia |].
      f_equal; [Z.div_mod_to_equations; lia |].
      do 2 f_equal. unfold ol. index_simpl. Z.div_mod_to_equations. lia.
Qed.

(** X8. Decoding an option from bytes and encoding the result gives back the
    bytes the decoder consumed, with the three reserved bits of byte 3
    cleared; in particular a decoded option always marshals. *)
Theorem option_decode_encode (r o : Option.t) (b : list Z) :
  is_bytes b ->
  Option.UnmarshalBinary r b = (o, None) ->
  let ol := Z.land (index b 3) 0x1f * 4 in
  Option.MarshalBinary o
  = Ok (store (slice b 0 (4 + ol)) 3 (Z.land (index b 3) 0x1f)).
Proof. intros Hb E. exact (proj2 (option_unmarshal_remarshal r o b Hb E)). Qed.

Lemma optionsLoop_decoded_marshal (b : list Z) (ol : Z) (fuel : nat) :
  is_bytes b ->
  forall i h h' res,
    Header.optionsLoop fuel b ol i h = Some (h', res) ->
    Forall marshals (Header.Options h) ->
    Forall marshals (Header.Options h').
Proof.
  intros Hb. induction fuel as [| fuel IH]; intros i h h' res H Hh;
    cbn [Header.optionsLoop] in H.
  - destruct (i <=? ol); [discriminate |]. now injection H as <- _.
  - destruct (i <=? ol); [| now injection H as <- _].
    destruct (Option.UnmarshalBinary Option.zero (slice_from b i))
      as [o [e |]] eqn:E; [now injection H as <- _ |].
    apply IH in H; [assumption |].
    cbn [Header.set_Options Header.Options]. apply Forall_app. split; [assumption |].
    constructor; [| constructor].
    apply option_unmarshal_remarshal in E as [_ E];
      [| now apply is_bytes_skipn].
    eexists. exact E.
Qed.

(** X9. A header decoded from bytes into a receiver whose options marshal
    has a valid VNI and options that all marshal; it marshals again exactly
    when the two version bits of byte 0 are zero. *)
Theorem decoded_header_marshals (r h' : Header.t) (b : list Z) (off : Z) :
  is_bytes b ->
  Forall marshals (Header.Options r) ->
  Header.unmarshalBinaryOffset r b = Some (h', Ok off) ->
  Forall marshals (Header.Options h') /\
  ((exists b', Header.MarshalBinary h' = Ok b') <-> index b 0 < 64).
Proof.
  intros Hb Hr H.
  assert (Hm : Forall marshals (Header.Options h')).
  { destruct (Z.lt_ge_cases (len b) 8) as [Hlt | Hge].
    { rewrite unmarshal_short in H by assumption. discriminate. }
    rewrite unmarshal_unfold in H by assumption. cbv zeta in H.
    destruct (len b <? _); [discriminate |].
    destruct (_ =? 0); [now injection H as <- _ |].
    now apply optionsLoop_decoded_marshal in H. }
  split; [exact Hm |].
  apply unmarshal_ok_shape in H as (_ & opts & Hh & _).
  rewrite fixed_fields_arith in Hh by (apply is_bytes_index; assumption).
  rewrite header_marshal_checks, marshalOptions_ok by assumption.
  rewrite Hh.
  cbn [Header.set_Options Header.Version Header.VNI].
  pose proof (is_bytes_index b 0 Hb) as H0.
  pose proof (is_bytes_index b 4 Hb) as H4.
  pose proof (is_bytes_index b 5 Hb) as H5.
  pose proof (is_bytes_index b 6 Hb) as H6.
  unfold is_uint8 in *. change (2 ^ 8) with 256 in *.
  change geneve.MaxVNI with 16777215.
  destruct (index b 0 / 64 =? 0) eqn:EV; cbn [negb].
  - apply Z.eqb_eq in EV.
    destruct (_ <=? 16777215) eqn:EN; cbn [negb].
    + split; [intros _; Z.div_mod_to_equations; lia | eauto].
    + apply Z.leb_gt in EN. lia.
  - apply Z.eqb_neq in EV. split.
    + intros [b' Hb']. discriminate.
    + intros Hlt. exfalso. apply EV. Z.div_mod_to_equations. lia.
Qed.

(** ** Encodings determine the option; the decoder is local *)

(** X10. Two options with fields of their Go types that marshal to the same
    bytes are equal, up to the nil-ness of [Data]. *)
Theorem option_marshal_injective (o1 o2 : Option.t) (b : list Z) :
  Option.wf o1 -> Option.wf o2 ->
  Option.MarshalBinary o1 = Ok b ->
  Option.MarshalBinary o2 = Ok b ->
  Option.same o1 o2.
Proof.
  intros W1 W2 M1 M2.
  pose proof (option_unmarshal_wire o1 Option.zero [] W1 (ex_intro _ b M1) eq_refl) as U1.
  pose proof (option_unmarshal_wire o2 Option.zero [] W2 (ex_intro _ b M2) eq_refl) as U2.
  apply option_marshal_ok_inv in M1 as (_ & _ & _ & E1).
  apply option_marshal_ok_inv in M2 as (_ & _ & _ & E2).
  rewrite <- E1 in U1. rewrite <- E2, U1 in U2.
  apply (f_equal fst) in U2. cbn [fst] in U2.
  unfold Option.decoded in U2. injection U2 as Hc Hf Ht Hd.
  repeat split; assumption.
Qed.

Lemma index_app_l (c t : list Z) (k : Z) :
  0 <= k < len c -> index (c ++ t) k = index c k.
Proof. unfold index, len. intros H. apply app_nth1. lia. Qed.

Lemma slice_app_l {A : Type} (c t : list A) (i j : Z) :
  0 <= i <= j -> j <= len c -> slice (c ++ t) i j = slice c i j.
Proof.
  unfold slice, len. intros Hij Hj.
  rewrite skipn_app, firstn_app, length_skipn.
  replace (Z.to_nat (j - i) - (length c - Z.to_nat i))%nat with 0%nat by lia.
  cbn [firstn]. apply app_nil_r.
Qed.

(** X11. [Option.UnmarshalBinary] reads the length of its buffer and the
    first [4 + ol] bytes only: two buffers of the same length that agree on
    these bytes give the same result. *)
Theorem option_unmarshal_local (r : Option.t) (c t1 t2 : list Z) :
  4 + Z.land (index c 3) 0x1f * 4 <= len c ->
  len t1 = len t2 ->
  Option.UnmarshalBinary r (c ++ t1) = Option.UnmarshalBinary r (c ++ t2).
Proof.
  intros Hc Ht.
  pose proof (land_0x1f_range (index c 3)) as Hol.
  unfold Option.UnmarshalBinary. rewrite !len_app, Ht.
  rewrite !(index_app_l c) by lia.
  change geneve.optionHeaderLen with 4.
  rewrite !(slice_app_l c) by lia.
  reflexivity.
Qed.

(** ** Encoding, then decoding: what the loop gives back *)

(** One iteration on the bytes of an option that is followed by at least
    four more option bytes or carries data. *)
Lemma optionsLoop_wire_step (o : Option.t) (os : list Option.t) (P : list Z) :
  forall fuel pre h ol,
    Option.wf o -> marshals o -> Forall marshals os ->
    len P mod 4 = 0 ->
    ol + 8 = len pre + len (options_wire (o :: os)) ->
    8 <= len (options_wire (o :: os)) ->
    Header.optionsLoop (S fuel) (pre ++ options_wire (o :: os) ++ P) ol (len pre) h
    = Header.optionsLoop fuel ((pre ++ option_wire o) ++ options_wire os ++ P) ol
        (len (pre ++ option_wire o))
        (Header.set_Options h (Header.Options h ++ [Option.decoded o])).
Proof.
  intros fuel pre h ol Hwf Hm Hms HP Hol H8.
  assert (E : (len pre <=? ol) = true) by (apply Z.leb_le; lia).
  cbn [Header.optionsLoop]. rewrite E.
  rewrite slice_from_app, options_wire_cons, <- app_assoc.
  rewrite option_unmarshal_wire; try assumption.
  2:{ rewrite len_app. pose proof (options_wire_len_mod4 os Hms) as H4.
      Z.div_mod_to_equations; lia. }
  cbn [Option.decoded Option.Data elems].
  change geneve.optionHeaderLen with 4.
  rewrite <- option_wire_len, <- len_app.
  now rewrite <- (app_assoc pre (option_wire o)).
Qed.

Lemma without_empty_last_len (os : list Option.t) :
  Forall marshals os ->
  len (options_wire os)
  = len (options_wire (without_empty_last os))
    + 4 * (len os - len (without_empty_last os)).
Proof.
  induction os as [| o os IH]; intros Hm; [reflexivity |].
  inversion Hm as [| ? ? Ho Hm']; subst.
  destruct os as [| o2 os2].
  - cbn [without_empty_last].
    destruct (len (elems (Option.Data o)) =? 0) eqn:E.
    + apply Z.eqb_eq in E. rewrite options_wire_cons, len_app, option_wire_len, E.
      reflexivity.
    + lia.
  - change (without_empty_last (o :: o2 :: os2))
      with (o :: without_empty_last (o2 :: os2)).
    rewrite (options_wire_cons o (o2 :: os2)).
    rewrite (options_wire_cons o (without_empty_last (o2 :: os2))).
    rewrite !len_app, !(len_cons o), IH by assumption. lia.
Qed.

(** On the bytes of options that marshal, the loop decodes every option but
    a last one without data. *)
Lemma optionsLoop_wire_general (os : list Option.t) (P : list Z) :
  forall fuel pre h ol,
    Forall Option.wf os ->
    Forall marshals os ->
    len P mod 4 = 0 ->
    ol + 8 = len pre + len (options_wire os) ->
    (length os <= fuel)%nat ->
    Header.optionsLoop fuel (pre ++ options_wire os ++ P) ol (len pre) h
    = Some (Header.set_Options h
              (Header.Options h ++ map Option.decoded (without_empty_last os)),
            Ok (len pre + len (options_wire (without_empty_last os)))).
Proof.
  induction os as [| o os IH]; intros fuel pre h ol Hwf Hm HP Hol Hf.
  - change (len (options_wire [])) with 0 in *.
    assert (E : (len pre <=? ol) = false) by (apply Z.leb_gt; lia).
    destruct fuel; cbn [Header.optionsLoop]; rewrite E;
      cbn [without_empty_last map]; rewrite app_nil_r, set_Options_same;
      change (len (options_wire [])) with 0; do 3 f_equal; lia.
  - inversion Hwf as [| ? ? Hwo Hwf']; subst.
    inversion Hm as [| ? ? Hmo Hm']; subst.
    pose proof (len_nonneg (elems (Option.Data o))) as Hn.
    assert (Hstep : 8 <= len (options_wire (o :: os)) ->
      Header.optionsLoop fuel (pre ++ options_wire (o :: os) ++ P) ol (len pre) h
      = Some (Header.set_Options h
                (Header.Options h ++ Option.decoded o
                   :: map Option.decoded (without_empty_last os)),
              Ok (len pre + len (options_wire (o :: without_empty_last os))))).
    { intros H8. destruct fuel as [| fuel]; [simpl in Hf; lia |].
      rewrite optionsLoop_wire_step by assumption.
      rewrite IH; try assumption.
      - unfold Header.set_Options.
        cbn [Header.Version Header.FlagOAM Header.FlagCritical Header.ProtocolType
             Header.VNI Header.Options].
        rewrite <- app_assoc. cbn [app].
        rewrite options_wire_cons, !len_app. do 3 f_equal. lia.
      - rewrite options_wire_cons, len_app in Hol. rewrite len_app. lia.
      - simpl in Hf. lia. }
    destruct os as [| o2 os2].
    + cbn [without_empty_last].
      destruct (len (elems (Option.Data o)) =? 0) eqn:E.
      * apply Z.eqb_eq in E.
        rewrite options_wire_cons, len_app, option_wire_len, E in Hol.
        change (len (options_wire [])) with 0 in *.
        assert (E' : (len pre <=? ol) = false) by (apply Z.leb_gt; lia).
        destruct fuel; cbn [Header.optionsLoop]; rewrite E';
          cbn [map]; rewrite app_nil_r, set_Options_same;
          change (len (options_wire [])) with 0; do 3 f_equal; lia.
      * apply Z.eqb_neq in E. apply Hstep.
        rewrite options_wire_cons, len_app, option_wire_len.
        change (len (options_wire [])) with 0.
        destruct Hmo as [ob Hob].
        apply option_marshal_ok_inv in Hob as (H4 & _). cbv zeta in H4.
        Z.div_mod_to_equations. lia.
    + change (without_empty_last (o :: o2 :: os2))
        with (o :: without_empty_last (o2 :: os2)).
      apply Hstep.
      rewrite !options_wire_cons, !len_app, !option_wire_len.
      pose proof (len_nonneg (elems (Option.Data o2))).
      pose proof (len_nonneg (options_wire os2)). lia.
Qed.

(** X12. Decoding the encoding of a header with at most 63 words of options
    (at most 260 bytes) gives back its scalar fields and its options in
    order, except that a last option without data is not decoded; the
    returned offset is the length of the encoding, less 4 in that case. *)
Theorem header_encode_decode (h : Header.t) (H : list Z) :
  Header.wf h ->
  Header.MarshalBinary h = Ok H ->
  len H <= 260 ->
  let kept := without_empty_last (Header.Options h) in
  Header.unmarshalBinaryOffset Header.zero H
  = Some (Header.mk 0 (Header.FlagOAM h) (Header.FlagCritical h)
                    (Header.ProtocolType h) (Header.VNI h)
                    (map Option.decoded kept),
          Ok (len H - 4 * (len (Header.Options h) - len kept))).
Proof.
  intros Hwf HM HL kept.
  apply header_marshal_wire in HM as (HV & Hmax & Hm & ->).
  set (os := Header.Options h) in *.
  set (n := len (options_wire os)) in *.
  assert (Hlen : len (header_wire h n ++ options_wire os) = 8 + n)
    by (rewrite len_app; reflexivity).
  rewrite Hlen in *.
  assert (Hn : 0 <= n) by apply len_nonneg.
  pose proof (options_wire_len_mod4 os Hm) as H4. fold n in H4.
  assert (H63 : n / 4 <= 63) by (Z.div_mod_to_equations; lia).
  pose proof (without_empty_last_len os Hm) as Hk. fold n kept in Hk.
  destruct (header_wire_fields h Header.zero n Hwf HV Hmax Hn H4 H63)
    as (a0 & a1 & a2 & a3 & a4 & a5 & a6 & a7 & Hw & Hol & Hff).
  rewrite Hw. cbn [app]. rewrite unmarshal_bytes8. cbv zeta.
  rewrite Hol, Hff. fold n.
  destruct (n <? n) eqn:E1; [lia |].
  destruct (n =? 0) eqn:E2.
  - assert (Hos : os = []).
    { pose proof (options_wire_len_lower os) as Hlow. fold n in Hlow.
      destruct os; [reflexivity | cbn [length] in Hlow; lia]. }
    assert (Hk0 : kept = []) by (unfold kept; rewrite Hos; reflexivity).
    apply Z.eqb_eq in E2. rewrite Hk0, Hos. cbn [map].
    change (len (@nil Option.t)) with 0. do 3 f_equal. lia.
  - rewrite <- (app_nil_r (options_wire os)).
    change (a0 :: a1 :: a2 :: a3 :: a4 :: a5 :: a6 :: a7 :: options_wire os ++ [])
      with ([a0; a1; a2; a3; a4; a5; a6; a7] ++ options_wire os ++ []).
    change 8 with (len [a0; a1; a2; a3; a4; a5; a6; a7]) at 1.
    destruct Hwf as (_ & _ & _ & Hwo).
    rewrite optionsLoop_wire_general; try assumption.
    + unfold Header.set_Options.
      cbn [Header.Version Header.FlagOAM Header.FlagCritical Header.ProtocolType
           Header.VNI Header.Options app].
      fold kept. do 3 f_equal.
      change (len [a0; a1; a2; a3; a4; a5; a6; a7]) with 8. lia.
    + reflexivity.
    + fold n. change (len [a0; a1; a2; a3; a4; a5; a6; a7]) with 8. lia.
    + pose proof (options_wire_len_lower os) as Hlow. fold n in Hlow. lia.
Qed.

(** X13. A header with at most 63 words of options (an encoding of at most
    260 bytes) whose last option, if any, carries data is decoded back from
    its encoding: the same fields and options in order, up to the nil-ness of
    the options' [Data], and the returned offset is the length of the
    encoding. *)
Theorem header_roundtrip_last_with_data (h : Header.t) (H : list Z) :
  Header.wf h ->
  Header.MarshalBinary h = Ok H ->
  len H <= 260 ->
  last_has_data (Header.Options h) ->
  exists h',
    Header.unmarshalBinaryOffset Header.zero H = Some (h', Ok (len H)) /\
    Header.UnmarshalBinary Header.zero H = Some (h', None) /\
    Header.same h' h.
Proof.
  intros Hwf HM HL Hlast.
  apply header_marshal_wire in HM as (HV & Hmax & Hm & ->).
  set (os := Header.Options h) in *.
  set (n := len (options_wire os)) in *.
  assert (Hlen : len (header_wire h n ++ options_wire os) = 8 + n)
    by (rewrite len_app; reflexivity).
  rewrite Hlen in *.
  assert (H63 : n / 4 <= 63) by (Z.div_mod_to_equations; lia).
  pose proof (header_unmarshal_wire h Header.zero [] Hwf HV Hmax Hm Hlast H63
                (or_intror eq_refl)) as HU.
  fold os n in HU. rewrite app_nil_r in HU.
  eexists. split; [exact HU |]. split.
  - apply UnmarshalBinary_ok. eexists. exact HU.
  - unfold Header.same. cbn [Header.Version Header.FlagOAM Header.FlagCritical
      Header.ProtocolType Header.VNI Header.Options Header.zero app].
    repeat split; try (symmetry; assumption). apply decoded_same.
Qed.

(** ** The receiver and the result *)

(** X14. The offset or error that [unmarshalBinaryOffset] returns depends on
    the buffer only, not on the receiver it decodes into. *)
Theorem unmarshal_result_independent_of_receiver
  (r g h' : Header.t) (b : list Z) (res : result Z) :
  Header.unmarshalBinaryOffset r b = Some (h', res) ->
  exists g', Header.unmarshalBinaryOffset g b = Some (g', res).
Proof.
  intros H.
  destruct (Z.lt_ge_cases (len b) 8) as [Hlt | Hge].
  { rewrite unmarshal_short in * by assumption. injection H as _ <-. eauto. }
  rewrite unmarshal_unfold in * by assumption. cbv zeta in *.
  destruct (len b <? _); [injection H as _ <-; eauto |].
  destruct (_ =? 0); [injection H as _ <-; eauto |].
  apply optionsLoop_appends in H as (opts & _ & Hg). rewrite Hg. eauto.
Qed.

(** ** VNI.Valid *)

(** X15. A [uint32] VNI is valid exactly when the encoder's shift
    [uint32(v) << 8] loses none of its bits, that is when shifting the
    encoded word back gives the VNI. *)
Theorem vni_valid_iff_lossless (v : Z) :
  is_uint32 v ->
  VNI_Valid v = true <->
  Z.shiftr (to_uint32 (Z.shiftl (to_uint32 v) 8)) 8 = v.
Proof.
  unfold is_uint32, VNI_Valid, to_uint32. change geneve.MaxVNI with 16777215.
  change (2 ^ 32) with 4294967296. intros Hv.
  rewrite (Z.mod_small v) by lia.
  rewrite Z.shiftl_mul_pow2, shiftr_div by lia. change (2 ^ 8) with 256.
  rewrite Z.leb_le. split; intros H; Z.div_mod_to_equations; lia.
Qed.

(** ** The further properties at concrete inputs *)

Lemma header_marshal_layout_witness :
  Header.MarshalBinary hdr_all = Ok hdr_all_bytes /\
  exists obs,
    Forall2 (fun o ob => Option.MarshalBinary o = Ok ob) (Header.Options hdr_all) obs /\
    slice_from hdr_all_bytes 8 = concat obs /\
    len hdr_all_bytes = 8 + len (concat obs).
Proof.
  split; [reflexivity |].
  exact (header_marshal_layout hdr_all hdr_all_bytes eq_refl).
Defined.

Lemma header_marshal_fixed_bytes_witness :
  Header.wf hdr_all /\
  Header.MarshalBinary hdr_all = Ok hdr_all_bytes /\
  index hdr_all_bytes 0 = ((len hdr_all_bytes - 8) / 4) mod 256 /\
  index hdr_all_bytes 1 = 128 + 64 /\
  index hdr_all_bytes 2 = 0x6558 / 256 /\
  index hdr_all_bytes 3 = 0x6558 mod 256 /\
  index hdr_all_bytes 4 = 0xbbeeff / 65536 /\
  index hdr_all_bytes 5 = (0xbbeeff / 256) mod 256 /\
  index hdr_all_bytes 6 = 0xbbeeff mod 256 /\
  index hdr_all_bytes 7 = 0.
Proof.
  assert (Hwf : Header.wf hdr_all) by solve_wf.
  split; [exact Hwf |]. split; [reflexivity |].
  exact (header_marshal_fixed_bytes hdr_all hdr_all_bytes Hwf eq_refl).
Defined.

Lemma option_marshal_layout_witness :
  Option.wf opt1 /\
  Option.MarshalBinary opt1 = Ok [0x00; 0x01; 0x82; 0x01; 0; 1; 2; 3] /\
  index [0x00; 0x01; 0x82; 0x01; 0; 1; 2; 3] 0 = 1 / 256 /\
  index [0x00; 0x01; 0x82; 0x01; 0; 1; 2; 3] 1 = 1 mod 256 /\
  index [0x00; 0x01; 0x82; 0x01; 0; 1; 2; 3] 2 = 128 + 2 /\
  index [0x00; 0x01; 0x82; 0x01; 0; 1; 2; 3] 3 = 4 / 4 /\
  Z.land (index [0x00; 0x01; 0x82; 0x01; 0; 1; 2; 3] 3) 0xe0 = 0 /\
  slice_from [0x00; 0x01; 0x82; 0x01; 0; 1; 2; 3] 4 = [0; 1; 2; 3].
Proof.
  assert (Hwf : Option.wf opt1) by solve_wf.
  split; [exact Hwf |]. split; [reflexivity |].
  exact (option_marshal_layout opt1 _ Hwf eq_refl).
Defined.

Lemma header_unmarshal_offset_bounds_witness :
  Header.unmarshalBinaryOffset Header.zero (hdr_all_bytes ++ [1; 2; 3; 4])
  = Some (hdr_all, Ok 28) /\
  8 <= 28 <= len (hdr_all_bytes ++ [1; 2; 3; 4]) /\ 28 mod 4 = 0 /\
  (20 = 0 -> 28 = 8 /\ Header.Options hdr_all = Header.Options Header.zero) /\
  (20 <> 0 -> 20 < 28).
Proof.
  split; [reflexivity |].
  exact (header_unmarshal_offset_bounds Header.zero hdr_all
           (hdr_all_bytes ++ [1; 2; 3; 4]) 28 eq_refl).
Defined.

Lemma header_unmarshal_fields_witness :
  is_bytes hdr_all_bytes /\
  Header.unmarshalBinaryOffset Header.zero hdr_all_bytes = Some (hdr_all, Ok 28) /\
  Header.Version hdr_all = 0x05 / 64 /\
  0 <= Header.Version hdr_all <= 3 /\
  Header.FlagOAM hdr_all = Z.testbit 0xc0 7 /\
  Header.FlagCritical hdr_all = Z.testbit 0xc0 6 /\
  Header.ProtocolType hdr_all = 0x65 * 256 + 0x58 /\
  Header.VNI hdr_all = 0xbb * 65536 + 0xee * 256 + 0xff /\
  VNI_Valid (Header.VNI hdr_all) = true.
Proof.
  assert (Hb : is_bytes hdr_all_bytes) by solve_wf.
  split; [exact Hb |]. split; [reflexivity |].
  exact (header_unmarshal_fields Header.zero hdr_all hdr_all_bytes 28 Hb eq_refl).
Defined.

Lemma option_decode_encode_witness :
  is_bytes buf_option_reserved /\
  Option.UnmarshalBinary Option.zero buf_option_reserved
  = (Option.mk 0 false 0 (Bytes [1; 2; 3; 4]), None) /\
  Option.MarshalBinary (Option.mk 0 false 0 (Bytes [1; 2; 3; 4]))
  = Ok [0; 0; 0; 0x01; 1; 2; 3; 4].
Proof.
  assert (Hb : is_bytes buf_option_reserved) by solve_wf.
  split; [exact Hb |]. split; [reflexivity |].
  exact (option_decode_encode Option.zero _ buf_option_reserved Hb eq_refl).
Defined.

Lemma decoded_header_marshals_witness :
  is_bytes hdr_all_bytes /\
  Header.unmarshalBinaryOffset hdr_one_option hdr_all_bytes
  = Some (Header.mk 0 true true 0x6558 0xbbeeff [opt1; opt1; opt2], Ok 28) /\
  Forall marshals [opt1; opt1; opt2] /\
  ((exists b', Header.MarshalBinary
                 (Header.mk 0 true true 0x6558 0xbbeeff [opt1; opt1; opt2]) = Ok b')
   <-> index hdr_all_bytes 0 < 64).
Proof.
  assert (Hb : is_bytes hdr_all_bytes) by solve_wf.
  assert (Hr : Forall marshals (Header.Options hdr_one_option))
    by (repeat constructor; eexists; reflexivity).
  split; [exact Hb |]. split; [reflexivity |].
  exact (decoded_header_marshals hdr_one_option _ hdr_all_bytes 28 Hb Hr eq_refl).
Defined.

Lemma option_marshal_injective_witness :
  Option.MarshalBinary Option.zero = Ok [0; 0; 0; 0] /\
  Option.MarshalBinary (Option.mk 0 false 0 (Bytes [])) = Ok [0; 0; 0; 0] /\
  Option.same Option.zero (Option.mk 0 false 0 (Bytes [])).
Proof.
  split; [reflexivity |]. split; [reflexivity |].
  apply (option_marshal_injective Option.zero (Option.mk 0 false 0 (Bytes []))
           [0; 0; 0; 0]); try reflexivity; solve_wf.
Defined.

Lemma option_unmarshal_local_witness :
  Option.UnmarshalBinary Option.zero ([0; 0; 0; 0x01; 1; 2; 3; 4] ++ [9; 9; 9; 9])
  = Option.UnmarshalBinary Option.zero ([0; 0; 0; 0x01; 1; 2; 3; 4] ++ [0; 0; 0; 0]).
Proof.
  apply (option_unmarshal_local Option.zero [0; 0; 0; 0x01; 1; 2; 3; 4]
           [9; 9; 9; 9] [0; 0; 0; 0]).
  - vm_compute. congruence.
  - reflexivity.
Defined.

Lemma header_encode_decode_witness :
  Header.wf hdr_empty_option /\
  Header.MarshalBinary hdr_empty_option = Ok hdr_empty_option_bytes /\
  len hdr_empty_option_bytes <= 260 /\
  Header.unmarshalBinaryOffset Header.zero hdr_empty_option_bytes
  = Some (Header.mk 0 false false 0 0 [], Ok 8).
Proof.
  assert (Hwf : Header.wf hdr_empty_option) by solve_wf.
  assert (HL : len hdr_empty_option_bytes <= 260) by (vm_compute; congruence).
  split; [exact Hwf |]. split; [reflexivity |]. split; [exact HL |].
  exact (header_encode_decode hdr_empty_option hdr_empty_option_bytes Hwf eq_refl HL).
Defined.

Lemma header_roundtrip_last_with_data_witness :
  Header.wf hdr_all /\
  Header.MarshalBinary hdr_all = Ok hdr_all_bytes /\
  len hdr_all_bytes <= 260 /\
  last_has_data (Header.Options hdr_all) /\
  exists h',
    Header.unmarshalBinaryOffset Header.zero hdr_all_bytes
    = Some (h', Ok (len hdr_all_bytes)) /\
    Header.UnmarshalBinary Header.zero hdr_all_bytes = Some (h', None) /\
    Header.same h' hdr_all.
Proof.
  assert (Hwf : Header.wf hdr_all) by solve_wf.
  assert (HL : len hdr_all_bytes <= 260) by (vm_compute; congruence).
  assert (Hd : last_has_data (Header.Options hdr_all)) by reflexivity.
  repeat (split; [assumption || reflexivity |]).
  exact (header_roundtrip_last_with_data hdr_all hdr_all_bytes Hwf eq_refl HL Hd).
Defined.

Lemma unmarshal_result_independent_of_receiver_witness :
  Header.unmarshalBinaryOffset Header.zero (hdr_one_option_bytes ++ [1])
  = Some (Header.mk 0 false false 0 0 [], Err errInvalidOptionLength) /\
  exists g',
    Header.unmarshalBinaryOffset hdr_all (hdr_one_option_bytes ++ [1])
    = Some (g', Err errInvalidOptionLength).
Proof.
  split; [reflexivity |].
  exact (unmarshal_result_independent_of_receiver Header.zero hdr_all _
           (hdr_one_option_bytes ++ [1]) _ eq_refl).
Defined.

Lemma vni_valid_iff_lossless_witness :
  is_uint32 0x01000000 /\
  (VNI_Valid 0x01000000 = true <->
   Z.shiftr (to_uint32 (Z.shiftl (to_uint32 0x01000000) 8)) 8 = 0x01000000).
Proof.
  assert (Hv : is_uint32 0x01000000) by solve_wf.
  split; [exact Hv |].
  exact (vni_valid_iff_lossless 0x01000000 Hv).
Defined.
